(** * The orchestrator of [src/orchestrator.py], embedded and verified

    The Python class [Orchestrator] coordinates one workflow run: it asks a
    text generator for a user story, routes the story to a set of advisory
    agents, creates a branch on the hosting service, runs the agents one
    after the other, writes a context file for the downstream framework and
    returns a pull-request URL.

    The embedding is shallow.  Python [str] values are lists of Unicode code
    points; dictionaries decoded from JSON are association lists inside
    [Json]; the [results] dictionary of the sequencer is a [gmap]; the
    methods that talk to the outside world live in a state-and-error monad
    that threads the chronological list of events of the run. *)

From Stdlib Require Import NArith String Ascii List Bool Lia.
From stdpp Require Import base list gmap.

Local Open Scope N_scope.

(** ** Python strings *)

(** A Python [str]: a sequence of code points. *)
Abbreviation str := (list N).

(** An ASCII literal of the source, read as a [str]. *)
Definition lit (s : string) : str :=
  List.map N_of_ascii (list_ascii_of_string s).

Definition is_digit (c : N) : bool := (48 <=? c) && (c <=? 57).
Definition is_ascii_lower (c : N) : bool := (97 <=? c) && (c <=? 122).
Definition is_ascii_upper (c : N) : bool := (65 <=? c) && (c <=? 90).

(** The complement of the character class [[^a-z0-9]] of [_slugify]. *)
Definition is_slug_char (c : N) : bool := is_ascii_lower c || is_digit c.


(** The separator ['-']. *)
Definition dash : N := 45.

Definition ascii_lower (c : N) : N := if is_ascii_upper c then c + 32 else c.

(** [sep.join(parts)] *)
Fixpoint str_join (sep : str) (parts : list str) : str :=
  match parts with
  | [] => []
  | [p] => p
  | p :: rest => p ++ sep ++ str_join sep rest
  end.

Section Strings.

(** The lower-case mapping of the Unicode database for a code point
    outside ASCII, as [str.lower] applies it: given the code points before
    it (nearest first), the code points after it, and the code point
    itself.  The context is what the final-sigma rule looks at; a mapping
    may be several code points long. *)
Variable unicode_lower : str -> str -> N -> str.

Fixpoint lower_from (before : str) (s : str) : str :=
  match s with
  | [] => []
  | c :: rest =>
      (if c <? 128 then [ascii_lower c] else unicode_lower before rest c)
        ++ lower_from (c :: before) rest
  end.

(** [text.lower()] *)
Definition py_lower (s : str) : str := lower_from [] s.

(** [re.sub(r'[^a-z0-9]+', '-', text)]: scanning from the left, every
    maximal run of characters outside [a-z0-9] is one match and is
    replaced by one ['-'].  [in_run] says that the previous character
    belongs to the match being replaced. *)
Fixpoint sub_runs (in_run : bool) (s : str) : str :=
  match s with
  | [] => []
  | c :: rest =>
      if is_slug_char c then c :: sub_runs false rest
      else if in_run then sub_runs true rest
      else dash :: sub_runs true rest
  end.

Definition re_sub_non_alnum (s : str) : str := sub_runs false s.

(** [s.lstrip(ch)], [s.rstrip(ch)] and [s.strip(ch)] for one character. *)
Fixpoint lstrip (ch : N) (s : str) : str :=
  match s with
  | [] => []
  | c :: rest => if c =? ch then lstrip ch rest else s
  end.

Definition rstrip (ch : N) (s : str) : str := rev (lstrip ch (rev s)).

Definition strip (ch : N) (s : str) : str := rstrip ch (lstrip ch s).

(** [Orchestrator._slugify] on a [str] argument. *)
Definition _slugify (text : str) : str :=
  let text := py_lower text in
  let text := re_sub_non_alnum text in
  strip dash text.

(** [f"feature/{self._slugify(title)}"] of [handle_request]. *)
Definition branch_name_of (title : str) : str :=
  lit "feature/" ++ _slugify title.

(** The maximal runs of characters of [a-z0-9] in [s], in order; [cur]
    holds the run being read, last character first.  This is what the
    words of a title are for the slug. *)
Fixpoint alnum_runs (cur : str) (s : str) : list str :=
  match s with
  | [] => match cur with [] => [] | _ => [rev cur] end
  | c :: rest =>
      if is_slug_char c then alnum_runs (c :: cur) rest
      else match cur with
           | [] => alnum_runs [] rest
           | _ => rev cur :: alnum_runs [] rest
           end
  end.

(** [sub in s] for two strings. *)
Fixpoint starts_with (p s : str) : bool :=
  match p, s with
  | [], _ => true
  | _ :: _, [] => false
  | a :: p', b :: s' => (a =? b) && starts_with p' s'
  end.

Fixpoint contains (s sub : str) : bool :=
  starts_with sub s ||
  match s with
  | [] => false
  | _ :: s' => contains s' sub
  end.

End Strings.

(** The lower-case table used in the examples: code points outside ASCII are
    left alone, except the two whose lower case reaches into ASCII. *)
Definition sample_unicode_lower (before after : str) (c : N) : str :=
  if c =? 8490 then [107]             (* KELVIN SIGN -> k *)
  else if c =? 304 then [105; 775]    (* I WITH DOT ABOVE -> i, combining dot *)
  else [c].

Definition nl : str := [10].
Definition quote : str := [34].

(** ** Values decoded from JSON *)

(** What [json.loads] returns: [None], a [bool], a number, a [str], a [list]
    or a [dict] in insertion order.  A number is kept as the JSON text it
    was read from; nothing in the orchestrator computes with one. *)
#[warnings="-register-all"]
Inductive Json : Type :=
| JNull
| JBool (b : bool)
| JNum (text : str)
| JStr (s : str)
| JArr (items : list Json)
| JObj (fields : list (str * Json)).

(** The exceptions a run can end with.  The orchestrator defines no
    exception class of its own: it raises [ValueError] itself and lets the
    built-in and library exceptions through. *)
Inductive exn : Type :=
| ValueError (msg : str)
| JSONDecodeError
| KeyError (key : str)
| TypeError
| AttributeError
| IndexError
| LibraryError (name : str).

(** [d.get(key)] on the field list of a decoded object. *)
Fixpoint fields_get (key : str) (fields : list (str * Json)) : option Json :=
  match fields with
  | [] => None
  | (k, v) :: rest => if bool_decide (k = key) then Some v else fields_get key rest
  end.

(** [v[key]] for a [str] key: only a [dict] can be subscripted by a string,
    and a missing key is a [KeyError]. *)
Definition subscript (v : Json) (key : str) : exn + Json :=
  match v with
  | JObj fields =>
      match fields_get key fields with
      | Some x => inr x
      | None => inl (KeyError key)
      end
  | _ => inl TypeError
  end.

(** [None] for an absent dictionary entry, as [dict.get] gives it. *)
Definition opt_str (o : option str) : Json :=
  match o with
  | Some s => JStr s
  | None => JNull
  end.

(** ** The collaborators and the events of a run *)

(** One call of [client.messages.create]. *)
Record GenRequest : Type := {
  gen_model : str;
  gen_max_tokens : N;
  gen_system : str;
  gen_user_content : str;
  gen_web_search : bool
}.

(** A content block of a generator response: only some carry [text]. *)
Inductive Block : Type :=
| TextBlock (text : str)
| OtherBlock.

(** A [requests] response: its status and what [response.json()] gives
    ([None] when the body does not decode). *)
Record HttpResponse : Type := {
  status_code : N;
  json_body : option Json
}.

Inductive Method : Type :=
| m_create_user_story
| m_decide_agents
| m_slugify
| m_create_branch
| m_spawn_specialists_sequential
| m_spawn_researcher
| m_spawn_security
| m_spawn_architect
| m_spawn_documenter
| m_execute_gsd
| m_wait_for_pr.

(** Arguments and results of the orchestrator's methods. *)
Inductive Value : Type :=
| VNone
| VStr (s : str)
| VJson (j : Json)
| VList (l : list str)
| VDict (d : gmap str str).

Definition VOpt (o : option str) : Value :=
  match o with
  | Some s => VStr s
  | None => VNone
  end.

(** What a run does, in order: console lines, and the calls to the
    generator, the hosting API and the file system.  [EvCall] and [EvReturn]
    are the model's own record of control entering a method of the
    orchestrator and leaving it with a result; they are what the order of
    the stages and of the role executors is read from. *)
Inductive Event : Type :=
| EvPrint (line : str)
| EvCall (m : Method) (args : list Value)
| EvReturn (m : Method) (result : Value)
| EvGenerate (req : GenRequest)
| EvGet (url : str) (headers : list (str * str))
| EvPost (url : str) (headers : list (str * str)) (payload : Json)
| EvWriteText (path : str) (content : str).

(** Everything outside the file: the library functions the orchestrator
    calls and the collaborators it talks to.  A collaborator answers from
    the request and from the events of the run so far. *)
Record Env : Type := {
  (** the Unicode lower-case table behind [str.lower] *)
  unicode_lower : str -> str -> N -> str;
  (** [json.loads]; [None] is a [JSONDecodeError] *)
  json_loads : str -> option Json;
  (** [json.dumps(v)] and [json.dumps(v, indent=2)] *)
  json_dumps : Json -> str;
  json_dumps_indent2 : Json -> str;
  (** [str(v)] of a decoded value that is not a [str] *)
  format_value : Json -> str;
  (** [list(set(l))]: the elements of [l], each once, in the order the set
      iterates them *)
  set_to_list : list str -> list str;
  set_to_list_NoDup : forall l, NoDup (set_to_list l);
  set_to_list_elem : forall l x, x ∈ set_to_list l <-> x ∈ l;
  (** [str(Path(tempfile.gettempdir()) / 'gsd_context.json')] *)
  gsd_context_path : str;
  (** [client.messages.create], [requests.get], [requests.post] and
      [Path.write_text] *)
  messages_create : list Event -> GenRequest -> exn + list Block;
  requests_get : list Event -> str -> list (str * str) -> exn + HttpResponse;
  requests_post : list Event -> str -> list (str * str) -> Json -> exn + HttpResponse;
  write_text : list Event -> str -> str -> exn + unit
}.

(** ** The monad of a run *)

(** A computation sees the events so far and gives a result or an exception
    together with the events it adds. *)
Definition M (A : Type) : Type := list Event -> (exn + A) * list Event.

Definition ret {A : Type} (x : A) : M A := fun _ => (inr x, []).

Definition raise {A : Type} (e : exn) : M A := fun _ => (inl e, []).

Definition bind {A B : Type} (m : M A) (k : A -> M B) : M B :=
  fun h =>
    match m h with
    | (inr x, evs) =>
        match k x (h ++ evs) with
        | (r, evs') => (r, evs ++ evs')
        end
    | (inl e, evs) => (inl e, evs)
    end.

Definition lift {A : Type} (r : exn + A) : M A := fun _ => (r, []).

Definition emit (e : Event) : M unit := fun _ => (inr tt, [e]).

Notation "x <- m ;; k" := (bind m (fun x => k))
  (at level 100, m at next level, right associativity).
Notation "m ;;; k" := (bind m (fun _ => k))
  (at level 100, right associativity).

(** [print(line)] *)
Definition print_ (line : str) : M unit := emit (EvPrint line).

(** A method of the orchestrator: the events of its body between the entry
    and, when the body does not raise, the return. *)
Definition method {A : Type} (m : Method) (args : list Value) (inj : A -> Value)
    (body : M A) : M A :=
  emit (EvCall m args) ;;;
  x <- body ;;
  emit (EvReturn m (inj x)) ;;;
  ret x.

(** ** Helpers of the method bodies *)

(** [re.search(r'\{.*\}', content, re.DOTALL)]: with [DOTALL] the dot
    matches every character, so the leftmost match starts at the first ['{']
    that has a ['}'] somewhere after it, which is the first ['{'] of the
    text or none at all, and the greedy star runs to the last ['}'].
    [from_first ch s] is the part of [s] after its first [ch]. *)
Fixpoint from_first (ch : N) (s : str) : option str :=
  match s with
  | [] => None
  | c :: rest => if c =? ch then Some rest else from_first ch rest
  end.

(** The part of [s] before its last [ch]. *)
Definition upto_last (ch : N) (s : str) : option str :=
  match from_first ch (rev s) with
  | Some r => Some (rev r)
  | None => None
  end.

Definition lbrace : N := 123.
Definition rbrace : N := 125.

(** [json_match.group()], when there is a match. *)
Definition re_search_braces (content : str) : option str :=
  match from_first lbrace content with
  | Some rest =>
      match upto_last rbrace rest with
      | Some body => Some ([lbrace] ++ body ++ [rbrace])
      | None => None
      end
  | None => None
  end.

(** [response.content[0].text] *)
Definition first_block_text (content : list Block) : exn + str :=
  match content with
  | [] => inl IndexError
  | TextBlock t :: _ => inr t
  | OtherBlock :: _ => inl AttributeError
  end.

(** [[block.text for block in response.content if hasattr(block, 'text')]] *)
Fixpoint block_texts (content : list Block) : list str :=
  match content with
  | [] => []
  | TextBlock t :: rest => t :: block_texts rest
  | OtherBlock :: rest => block_texts rest
  end.

(** The truth value of an optional string: [None] and [''] are false. *)
Definition truthy (o : option str) : bool :=
  match o with
  | Some (_ :: _) => true
  | _ => false
  end.

Definition role_researcher : str := lit "researcher".
Definition role_architect : str := lit "architect".
Definition role_documenter : str := lit "documenter".
Definition role_security : str := lit "security".

Definition n_tilde : str := [241].
Definition i_acute : str := [237].
Definition o_acute : str := [243].
Definition e_acute : str := [233].

(** The two keyword lists of [_decide_agents]. *)
Definition new_feature_keywords : list str :=
  [ lit "a" ++ n_tilde ++ lit "ade"; lit "implementa"; lit "crea"; lit "nueva";
    lit "a" ++ n_tilde ++ lit "adir"; lit "agregar";
    lit "auth"; lit "integra"; lit "conecta" ].

Definition sensitive_keywords : list str :=
  [ lit "auth"; lit "security"; lit "password"; lit "token"; lit "pharma";
    lit "patient"; lit "hipaa" ].

(** [any(word in text for word in words)] *)
Definition any_in (text : str) (words : list str) : bool :=
  existsb (contains text) words.

(** The system prompt of [_create_user_story]. *)
Definition user_story_system : str :=
  lit "Eres un Product Manager experto." ++ nl ++
  lit "Tu trabajo es convertir requests de usuarios en user stories estructuradas." ++ nl ++
  nl ++
  lit "Formato de output (JSON):" ++ nl ++
  lit "{" ++ nl ++
  lit "    " ++ quote ++ lit "title" ++ quote ++ lit ": " ++ quote ++
    lit "T" ++ i_acute ++ lit "tulo corto de la feature" ++ quote ++ lit "," ++ nl ++
  lit "    " ++ quote ++ lit "summary" ++ quote ++ lit ": " ++ quote ++
    lit "Como [rol], quiero [acci" ++ o_acute ++ lit "n], para [beneficio]" ++ quote ++ lit "," ++ nl ++
  lit "    " ++ quote ++ lit "acceptance_criteria" ++ quote ++ lit ": [" ++ quote ++
    lit "Criterio 1" ++ quote ++ lit ", " ++ quote ++ lit "Criterio 2" ++ quote ++ lit ", ...]," ++ nl ++
  lit "    " ++ quote ++ lit "technical_notes" ++ quote ++ lit ": " ++ quote ++
    lit "Notas t" ++ e_acute ++ lit "cnicas relevantes" ++ quote ++ lit "," ++ nl ++
  lit "    " ++ quote ++ lit "estimated_complexity" ++ quote ++ lit ": " ++ quote ++
    lit "low|medium|high" ++ quote ++ nl ++
  lit "}" ++ nl.

Definition sonnet : str := lit "claude-sonnet-4-5".

(** The request [_create_user_story] sends to the generator. *)
Definition user_story_request (user_input : str) : GenRequest :=
  {| gen_model := sonnet;
     gen_max_tokens := 4000;
     gen_system := user_story_system;
     gen_user_content := lit "Crea user story para: " ++ user_input;
     gen_web_search := false |}.

(** The orchestrator object: what [__init__] stores in [self], the generator
    client apart (it is part of the environment). *)
Record Orchestrator : Type := {
  github_token : str;
  github_api : str;
  prompts : gmap str str
}.

(** [Orchestrator.__init__]: [prompt_files] lists the [*.txt] files of the
    prompts directory as (stem, text), in the order [glob] yields them. *)
Definition new_orchestrator (token : str) (prompt_files : list (str * str)) : Orchestrator :=
  {| github_token := token;
     github_api := lit "https://api.github.com";
     prompts := fold_left (fun m kv => <[kv.1 := kv.2]> m) prompt_files ∅ |}.

(** ** The methods of [Orchestrator] *)

Section Methods.

Variable E : Env.
Variable self : Orchestrator.

(** [await self.client.messages.create(...)] *)
Definition generate (req : GenRequest) : M (list Block) :=
  fun h => (messages_create E h req, [EvGenerate req]).

(** [requests.get(url, headers=headers)] *)
Definition http_get (url : str) (headers : list (str * str)) : M HttpResponse :=
  fun h => (requests_get E h url headers, [EvGet url headers]).

(** [requests.post(url, headers=headers, json=payload)] *)
Definition http_post (url : str) (headers : list (str * str)) (payload : Json)
    : M HttpResponse :=
  fun h => (requests_post E h url headers payload, [EvPost url headers payload]).

(** [path.write_text(content, encoding='utf-8')] *)
Definition path_write_text (path content : str) : M unit :=
  fun h => (write_text E h path content, [EvWriteText path content]).

(** [response.json()] *)
Definition response_json (r : HttpResponse) : M Json :=
  match json_body r with
  | Some v => ret v
  | None => raise JSONDecodeError
  end.

(** [self.prompts[name]] *)
Definition prompt_of (name : str) : M str :=
  match prompts self !! name with
  | Some p => ret p
  | None => raise (KeyError name)
  end.

(** A value inside an f-string. *)
Definition py_format (v : Json) : str :=
  match v with
  | JStr s => s
  | _ => format_value E v
  end.

(** ['\n'.join([block.text for block in response.content if hasattr(block, 'text')])] *)
Definition joined_text (content : list Block) : str :=
  str_join nl (block_texts content).

Definition _create_user_story (user_input : str) : M Json :=
  method m_create_user_story [VStr user_input] VJson (
    response <- generate (user_story_request user_input) ;;
    content <- lift (first_block_text response) ;;
    match re_search_braces content with
    | Some json_match =>
        match json_loads E json_match with
        | Some v => ret v
        | None => raise JSONDecodeError
        end
    | None => raise (ValueError (lit "No JSON found in response"))
    end).

Definition _decide_agents (user_story : Json) : list str :=
  let agents := [] in
  let story_text := py_lower (unicode_lower E) (json_dumps E user_story) in
  let agents :=
    if any_in story_text new_feature_keywords
    then agents ++ [role_researcher] else agents in
  let agents := agents ++ [role_architect] in
  let agents := agents ++ [role_documenter] in
  let agents :=
    if any_in story_text sensitive_keywords
    then agents ++ [role_security] else agents in
  set_to_list E agents.

(** [self._decide_agents(user_story)] as a step of the run. *)
Definition invoke_decide_agents (user_story : Json) : M (list str) :=
  method m_decide_agents [VJson user_story] VList (ret (_decide_agents user_story)).

(** [self._slugify(text)] as a step of the run: [text] is whatever the
    story holds under ['title'], and only a [str] has [lower]. *)
Definition invoke_slugify (text : Json) : M str :=
  method m_slugify [VJson text] VStr (
    match text with
    | JStr s => ret (_slugify (unicode_lower E) s)
    | _ => raise AttributeError
    end).

(** The request of [_spawn_researcher], with the web search tool. *)
Definition researcher_request (system : str) (user_story : Json) : GenRequest :=
  {| gen_model := sonnet;
     gen_max_tokens := 8000;
     gen_system := system;
     gen_user_content :=
       lit "Research for this feature:" ++ nl ++ nl ++
       lit "User Story:" ++ nl ++
       json_dumps_indent2 E user_story ++ nl ++ nl ++
       lit "Focus on:" ++ nl ++
       lit "- Best libraries/frameworks for this use case" ++ nl ++
       lit "- Best practices and patterns" ++ nl ++
       lit "- Security considerations" ++ nl ++
       lit "- Compliance requirements (pharma: 21 CFR Part 11, HIPAA, GDPR)" ++ nl;
     gen_web_search := true |}.

Definition _spawn_researcher (user_story : Json) : M str :=
  method m_spawn_researcher [VJson user_story] VStr (
    system <- prompt_of role_researcher ;;
    response <- generate (researcher_request system user_story) ;;
    ret (joined_text response)).

(** The [context_parts] of [_spawn_architect]: the story, then the
    research and the security findings that are there and not empty. *)
Definition architect_context (user_story : Json) (research security : option str)
    : list str :=
  let context_parts := [lit "User Story:" ++ nl ++ json_dumps_indent2 E user_story] in
  let context_parts :=
    if truthy research
    then context_parts ++ [nl ++ lit "Research Findings:" ++ nl ++ default [] research]
    else context_parts in
  let context_parts :=
    if truthy security
    then context_parts ++ [nl ++ lit "Security Requirements:" ++ nl ++ default [] security]
    else context_parts in
  context_parts.

Definition architect_request (system : str) (context_parts : list str) : GenRequest :=
  {| gen_model := sonnet;
     gen_max_tokens := 16000;
     gen_system := system;
     gen_user_content := str_join (nl ++ nl) context_parts;
     gen_web_search := false |}.

Definition _spawn_architect (user_story : Json) (research security : option str) : M str :=
  method m_spawn_architect [VJson user_story; VOpt research; VOpt security] VStr (
    let context_parts := architect_context user_story research security in
    system <- prompt_of role_architect ;;
    response <- generate (architect_request system context_parts) ;;
    ret (joined_text response)).

(** The request of [_spawn_security]; the system prompt is
    [self.prompts.get('security', 'You are a security expert.')]. *)
Definition security_request (user_story : Json) : GenRequest :=
  {| gen_model := sonnet;
     gen_max_tokens := 8000;
     gen_system := default (lit "You are a security expert.") (prompts self !! role_security);
     gen_user_content :=
       lit "Analyze security requirements for:" ++ nl ++ nl ++
       json_dumps_indent2 E user_story ++ nl ++ nl ++
       lit "Focus on:" ++ nl ++
       lit "- Data protection (encryption, access control)" ++ nl ++
       lit "- Compliance (HIPAA, GDPR, 21 CFR Part 11)" ++ nl ++
       lit "- Audit logging requirements" ++ nl ++
       lit "- Security testing requirements" ++ nl;
     gen_web_search := false |}.

Definition _spawn_security (user_story : Json) : M str :=
  method m_spawn_security [VJson user_story] VStr (
    response <- generate (security_request user_story) ;;
    ret (joined_text response)).

Definition documenter_request (system : str) (user_story : Json) : GenRequest :=
  {| gen_model := sonnet;
     gen_max_tokens := 8000;
     gen_system := system;
     gen_user_content :=
       lit "Create documentation for:" ++ nl ++ json_dumps_indent2 E user_story;
     gen_web_search := false |}.

Definition _spawn_documenter (user_story : Json) : M str :=
  method m_spawn_documenter [VJson user_story] VStr (
    system <- prompt_of role_documenter ;;
    response <- generate (documenter_request system user_story) ;;
    ret (joined_text response)).

(** One step of the sequencer: [if role in agents: results[role] = await run]. *)
Definition run_if_member (role : str) (agents : list str) (start done : str)
    (run : M str) (results : gmap str str) : M (gmap str str) :=
  if bool_decide (role ∈ agents) then
    print_ start ;;;
    out <- run ;;
    print_ done ;;;
    ret (<[role := out]> results)
  else ret results.

Definition _spawn_specialists_sequential (user_story : Json) (agents : list str)
    : M (gmap str str) :=
  method m_spawn_specialists_sequential [VJson user_story; VList agents] VDict (
    let results : gmap str str := ∅ in
    results <- run_if_member role_researcher agents
      (lit "  [RESEARCH] Running Researcher Agent...")
      (lit "  [OK] Researcher completed")
      (_spawn_researcher user_story) results ;;
    results <- run_if_member role_security agents
      (lit "  [SECURITY] Running Security Agent...")
      (lit "  [OK] Security completed")
      (_spawn_security user_story) results ;;
    results <- run_if_member role_architect agents
      (lit "  [ARCHITECT] Running Architect Agent...")
      (lit "  [OK] Architect completed")
      (_spawn_architect user_story
         (results !! role_researcher) (results !! role_security)) results ;;
    results <- run_if_member role_documenter agents
      (lit "  [DOC] Running Documenter Agent...")
      (lit "  [OK] Documenter completed")
      (_spawn_documenter user_story) results ;;
    ret results).

(** The two addresses, the headers and the payload of [_create_branch]. *)
Definition head_url (repo : str) : str :=
  github_api self ++ lit "/repos/" ++ repo ++ lit "/git/refs/heads/main".

Definition refs_url (repo : str) : str :=
  github_api self ++ lit "/repos/" ++ repo ++ lit "/git/refs".

Definition api_headers : list (str * str) :=
  [ (lit "Authorization", lit "token " ++ github_token self);
    (lit "Accept", lit "application/vnd.github.v3+json") ].

Definition ref_payload (branch_name : str) (sha : Json) : Json :=
  JObj [ (lit "ref", JStr (lit "refs/heads/" ++ branch_name)); (lit "sha", sha) ].

Definition _create_branch (repo branch_name : str) : M unit :=
  method m_create_branch [VStr repo; VStr branch_name] (fun _ => VNone) (
    let url := head_url repo in
    let headers := api_headers in
    response <- http_get url headers ;;
    body <- response_json response ;;
    object <- lift (subscript body (lit "object")) ;;
    sha <- lift (subscript object (lit "sha")) ;;
    let create_url := refs_url repo in
    let payload := ref_payload branch_name sha in
    http_post create_url headers payload ;;;
    ret tt).

(** The dictionary [_execute_gsd] serialises. *)
Definition gsd_payload (user_story : Json) (context : gmap str str) : Json :=
  JObj [ (lit "user_story", user_story);
         (lit "research", opt_str (context !! role_researcher));
         (lit "architecture", opt_str (context !! role_architect));
         (lit "documentation", opt_str (context !! role_documenter));
         (lit "security", opt_str (context !! role_security)) ].

Definition _execute_gsd (user_story : Json) (context : gmap str str)
    (repo branch : str) : M unit :=
  method m_execute_gsd [VJson user_story; VDict context; VStr repo; VStr branch]
    (fun _ => VNone) (
    let context_file := gsd_context_path E in
    path_write_text context_file
      (json_dumps_indent2 E (gsd_payload user_story context)) ;;;
    print_ (lit "  [5] GSD would execute here with context from specialists") ;;;
    print_ (lit "  Context saved to: " ++ context_file)).

Definition _wait_for_pr (repo branch : str) : M str :=
  method m_wait_for_pr [VStr repo; VStr branch] VStr (
    ret (lit "https://github.com/" ++ repo ++ lit "/pull/XXX")).

(** The lines [handle_request] prints before its first step. *)
Definition opening_lines : list Event :=
  [ EvPrint (nl ++ repeat 61 60%nat);
    EvPrint (lit "[BOT] ORCHESTRATOR: Processing request");
    EvPrint (repeat 61 60%nat ++ nl);
    EvPrint (lit "[1] Step 1: Creating user story...") ].

Definition banner : str := repeat 61 60%nat.

Definition handle_request (user_input repo : str) : M str :=
  print_ (nl ++ banner) ;;;
  print_ (lit "[BOT] ORCHESTRATOR: Processing request") ;;;
  print_ (banner ++ nl) ;;;
  print_ (lit "[1] Step 1: Creating user story...") ;;;
  user_story <- _create_user_story user_input ;;
  summary <- lift (subscript user_story (lit "summary")) ;;
  print_ (lit "[OK] User story created:" ++ nl ++ py_format summary ++ nl) ;;;
  print_ (lit "[2] Step 2: Intelligent routing...") ;;;
  agents_needed <- invoke_decide_agents user_story ;;
  print_ (lit "[OK] Agents to spawn: " ++ str_join (lit ", ") agents_needed ++ nl) ;;;
  print_ (lit "[3] Step 3: Creating GitHub branch...") ;;;
  title <- lift (subscript user_story (lit "title")) ;;
  slug <- invoke_slugify title ;;
  let branch_name := lit "feature/" ++ slug in
  _create_branch repo branch_name ;;;
  print_ (lit "[OK] Branch created: " ++ branch_name ++ nl) ;;;
  print_ (lit "[4] Step 4: Spawning specialized agents...") ;;;
  specialist_results <- _spawn_specialists_sequential user_story agents_needed ;;
  print_ (lit "[OK] Specialists completed" ++ nl) ;;;
  print_ (lit "[5] Step 5: Executing GSD framework...") ;;;
  _execute_gsd user_story specialist_results repo branch_name ;;;
  print_ (lit "[OK] GSD execution completed" ++ nl) ;;;
  print_ (lit "[6] Step 6: Waiting for CI/CD and PR creation...") ;;;
  pr_url <- _wait_for_pr repo branch_name ;;
  print_ (nl ++ banner) ;;;
  print_ (lit "[OK] ORCHESTRATOR: Request completed!") ;;;
  print_ (lit "PR URL: " ++ pr_url) ;;;
  print_ (banner ++ nl) ;;;
  ret pr_url.

End Methods.

(** ** Reading a run *)

(** The components of the workflow. *)
Inductive Stage : Type :=
| Extractor
| Router
| BranchProvisioner
| Sequencer
| HandoffPublisher
| CompletionWatcher.

(** The component a method belongs to.  The role executors run inside the
    sequencer; [_slugify] derives the name of the branch to provision. *)
Definition stage_of (m : Method) : Stage :=
  match m with
  | m_create_user_story => Extractor
  | m_decide_agents => Router
  | m_slugify | m_create_branch => BranchProvisioner
  | m_spawn_specialists_sequential
  | m_spawn_researcher | m_spawn_security
  | m_spawn_architect | m_spawn_documenter => Sequencer
  | m_execute_gsd => HandoffPublisher
  | m_wait_for_pr => CompletionWatcher
  end.

Global Instance Stage_eq_dec : EqDecision Stage.
Proof. solve_decision. Defined.

Global Instance Method_eq_dec : EqDecision Method.
Proof. solve_decision. Defined.

(** The methods entered during a run, in order. *)
Fixpoint calls (evs : list Event) : list Method :=
  match evs with
  | [] => []
  | EvCall m _ :: rest => m :: calls rest
  | _ :: rest => calls rest
  end.

(** Consecutive repetitions removed. *)
Fixpoint squash (l : list Stage) : list Stage :=
  match l with
  | [] => []
  | a :: rest =>
      match rest with
      | b :: _ => if bool_decide (a = b) then squash rest else a :: squash rest
      | [] => [a]
      end
  end.

(** The stages of a run in the order they are entered. *)
Definition stages (evs : list Event) : list Stage :=
  squash (List.map stage_of (calls evs)).

(** The role a method executes, if it is a role executor. *)
Definition executor_role (m : Method) : option str :=
  match m with
  | m_spawn_researcher => Some role_researcher
  | m_spawn_security => Some role_security
  | m_spawn_architect => Some role_architect
  | m_spawn_documenter => Some role_documenter
  | _ => None
  end.

(** The role executors in the order the sequencer considers them. *)
Definition executors : list Method :=
  [m_spawn_researcher; m_spawn_security; m_spawn_architect; m_spawn_documenter].

(** The executors the sequencer has to run for a list of agents. *)
Definition scheduled (agents : list str) : list Method :=
  List.filter
    (fun m => match executor_role m with
              | Some role => bool_decide (role ∈ agents)
              | None => false
              end)
    executors.

(** The entries into and returns from role executors, in order. *)
Fixpoint executor_marks (evs : list Event) : list Event :=
  match evs with
  | [] => []
  | EvCall m args :: rest =>
      match executor_role m with
      | Some _ => EvCall m args :: executor_marks rest
      | None => executor_marks rest
      end
  | EvReturn m v :: rest =>
      match executor_role m with
      | Some _ => EvReturn m v :: executor_marks rest
      | None => executor_marks rest
      end
  | _ :: rest => executor_marks rest
  end.

(** [w] occurs in [text]. *)
Definition occurs (w text : str) : Prop :=
  exists before after, text = before ++ w ++ after.

(** The commit the head lookup of [_create_branch] resolves to:
    [response.json()['object']['sha']], when the request returns and the
    body has it. *)
Definition resolved_sha (r : exn + HttpResponse) : option Json :=
  match r with
  | inr response =>
      match json_body response with
      | Some body =>
          match subscript body (lit "object") with
          | inr object =>
              match subscript object (lit "sha") with
              | inr sha => Some sha
              | inl _ => None
              end
          | inl _ => None
          end
      | None => None
      end
  | inl _ => None
  end.

(** The key of the handoff payload that carries the output of a role. *)
Definition payload_key (role : str) : str :=
  if bool_decide (role = role_researcher) then lit "research"
  else if bool_decide (role = role_architect) then lit "architecture"
  else if bool_decide (role = role_documenter) then lit "documentation"
  else lit "security".

(** The string [_wait_for_pr] returns for a repository. *)
Definition pr_placeholder (repo : str) : str :=
  lit "https://github.com/" ++ repo ++ lit "/pull/XXX".

(** The role identifiers. *)
Definition roles : list str :=
  [role_researcher; role_security; role_architect; role_documenter].

(** The calls that leave the process: generator, hosting API, file system. *)
Definition is_external (e : Event) : bool :=
  match e with
  | EvGenerate _ | EvGet _ _ | EvPost _ _ _ | EvWriteText _ _ => true
  | _ => false
  end.

Definition is_hosting_call (e : Event) : bool :=
  match e with
  | EvGet _ _ | EvPost _ _ _ => true
  | _ => false
  end.

Definition is_write (e : Event) : bool :=
  match e with
  | EvWriteText _ _ => true
  | _ => false
  end.

(** ** Predicates of the statements *)

(** The characters a slug is made of. *)
Definition slug_or_dash (c : N) : Prop := is_slug_char c = true \/ c = dash.

(** No two separators next to each other. *)
Fixpoint separated (s : str) : Prop :=
  match s with
  | [] => True
  | c :: rest => (c = dash -> head rest <> Some dash) /\ separated rest
  end.

(** The shape of a slug. *)
Record is_slug (s : str) : Prop := {
  slug_chars : Forall slug_or_dash s;
  slug_separated : separated s;
  slug_head : head s <> Some dash;
  slug_last : last s <> Some dash
}.

(** A word of a title: not empty, made of [a-z0-9]. *)
Definition is_word (w : str) : Prop :=
  w <> [] /\ Forall (fun c => is_slug_char c = true) w.

(** Every event a computation adds satisfies [P], whatever the history and
    the outcome. *)
Definition emits {A : Type} (P : Event -> Prop) (m : M A) : Prop :=
  forall h r evs, m h = (r, evs) -> Forall P evs.

(** An executor answers with the joined text of what the generator returns
    for its request, and raises what the generator raises. *)
Definition executor_run (m : Method) (args : list Value) (req : GenRequest) (E : Env)
    (h : list Event) : (exn + str) * list Event :=
  match messages_create E (h ++ [EvCall m args]) req with
  | inr response =>
      (inr (joined_text response),
       [EvCall m args; EvGenerate req; EvReturn m (VStr (joined_text response))])
  | inl e => (inl e, [EvCall m args; EvGenerate req])
  end.

(** What one run of an executor leaves in the list of entries and returns:
    its entry and, when it completes, its return with the output. *)
Definition executor_like (m : Method) (args : list Value) (run : M str) : Prop :=
  forall h r evs, run h = (r, evs) ->
    executor_marks evs =
      EvCall m args :: match r with
                       | inr out => [EvReturn m (VStr out)]
                       | inl _ => []
                       end.

(** An event of the sequencing stage: an entry into the sequencer or an
    executor, a return, a console line or a request to the generator; not a
    call to the hosting API and not a write. *)
Definition sequencing_event (e : Event) : Prop :=
  match e with
  | EvCall m _ => stage_of m = Sequencer
  | EvReturn _ _ | EvPrint _ | EvGenerate _ => True
  | EvGet _ _ | EvPost _ _ _ | EvWriteText _ _ => False
  end.

(** The writes of a run, and its requests to the hosting API. *)
Definition writes (evs : list Event) : list Event := List.filter is_write evs.
Definition hosting_calls (evs : list Event) : list Event := List.filter is_hosting_call evs.

(** ** A JSON codec for the examples

    The theorems below hold for every environment.  The examples need one
    environment to run in; its [json.loads] and [json.dumps] follow the
    grammar and the defaults of the Python module ([ensure_ascii], the
    separators [', '] and [': '], and [','] with an indent). *)

Module JsonCodec.

Definition hex_digit (d : N) : N := if d <? 10 then 48 + d else 87 + d.

(** ['\\u{0:04x}'.format(n)] *)
Definition u_escape (n : N) : str :=
  [92; 117; hex_digit (n / 4096 mod 16); hex_digit (n / 256 mod 16);
   hex_digit (n / 16 mod 16); hex_digit (n mod 16)].

Definition escape_char (c : N) : str :=
  if c =? 34 then [92; 34]
  else if c =? 92 then [92; 92]
  else if c =? 10 then [92; 110]
  else if c =? 13 then [92; 114]
  else if c =? 9 then [92; 116]
  else if c =? 8 then [92; 98]
  else if c =? 12 then [92; 102]
  else if (32 <=? c) && (c <=? 126) then [c]
  else if c <? 65536 then u_escape c
  else u_escape (55296 + ((c - 65536) / 1024) mod 1024)
         ++ u_escape (56320 + (c - 65536) mod 1024).

Definition encode_string (s : str) : str :=
  quote ++ concat (List.map escape_char s) ++ quote.

(** The line break before an item at nesting [level], when there is an
    indent. *)
Definition newline_indent (indent : option nat) (level : nat) : str :=
  match indent with
  | Some n => nl ++ repeat 32 (n * level)%nat
  | None => []
  end.

Definition item_separator (indent : option nat) (level : nat) : str :=
  match indent with
  | Some _ => lit "," ++ newline_indent indent level
  | None => lit ", "
  end.

Fixpoint encode (indent : option nat) (level : nat) (v : Json) : str :=
  match v with
  | JNull => lit "null"
  | JBool true => lit "true"
  | JBool false => lit "false"
  | JNum text => text
  | JStr s => encode_string s
  | JArr [] => lit "[]"
  | JArr items =>
      lit "[" ++ newline_indent indent (S level) ++
      str_join (item_separator indent (S level))
        ((fix each (l : list Json) : list str :=
            match l with
            | [] => []
            | x :: rest => encode indent (S level) x :: each rest
            end) items) ++
      newline_indent indent level ++ lit "]"
  | JObj [] => lit "{}"
  | JObj fields =>
      lit "{" ++ newline_indent indent (S level) ++
      str_join (item_separator indent (S level))
        ((fix each (l : list (str * Json)) : list str :=
            match l with
            | [] => []
            | (k, x) :: rest =>
                (encode_string k ++ lit ": " ++ encode indent (S level) x) :: each rest
            end) fields) ++
      newline_indent indent level ++ lit "}"
  end.

(** [json.dumps(v)] and [json.dumps(v, indent=2)] *)
Definition dumps (v : Json) : str := encode None 0 v.
Definition dumps_indent2 (v : Json) : str := encode (Some 2%nat) 0 v.

Definition is_ws (c : N) : bool :=
  (c =? 32) || (c =? 9) || (c =? 10) || (c =? 13).

Fixpoint skip_ws (s : str) : str :=
  match s with
  | c :: rest => if is_ws c then skip_ws rest else s
  | [] => []
  end.

Definition hex_value (c : N) : option N :=
  if is_digit c then Some (c - 48)
  else if (97 <=? c) && (c <=? 102) then Some (c - 87)
  else if (65 <=? c) && (c <=? 70) then Some (c - 55)
  else None.

Definition hex4 (a b c d : N) : option N :=
  match hex_value a, hex_value b, hex_value c, hex_value d with
  | Some a, Some b, Some c, Some d => Some (((a * 16 + b) * 16 + c) * 16 + d)
  | _, _, _, _ => None
  end.

Definition simple_escape (c : N) : option N :=
  if c =? 34 then Some 34 else if c =? 92 then Some 92
  else if c =? 47 then Some 47 else if c =? 98 then Some 8
  else if c =? 102 then Some 12 else if c =? 110 then Some 10
  else if c =? 114 then Some 13 else if c =? 116 then Some 9
  else None.

Definition is_high_surrogate (u : N) : bool := (55296 <=? u) && (u <=? 56319).
Definition is_low_surrogate (u : N) : bool := (56320 <=? u) && (u <=? 57343).

(** The characters of a string after its opening quote, up to the closing
    one; [acc] holds what is read, last character first. *)
Fixpoint scan_string (acc : str) (s : str) : option (str * str) :=
  match s with
  | [] => None
  | 34 :: rest => Some (rev acc, rest)
  | 92 :: 117 :: a :: b :: c :: d :: rest =>
      match hex4 a b c d with
      | None => None
      | Some u =>
          match rest with
          | 92 :: 117 :: a' :: b' :: c' :: d' :: rest' =>
              if is_high_surrogate u then
                match hex4 a' b' c' d' with
                | None => None
                | Some u' =>
                    if is_low_surrogate u'
                    then scan_string
                           (65536 + ((u - 55296) * 1024 + (u' - 56320)) :: acc) rest'
                    else scan_string (u :: acc) rest
                end
              else scan_string (u :: acc) rest
          | 92 :: 117 :: _ => if is_high_surrogate u then None else scan_string (u :: acc) rest
          | _ => scan_string (u :: acc) rest
          end
      end
  | 92 :: e :: rest =>
      match simple_escape e with
      | Some c => scan_string (c :: acc) rest
      | None => None
      end
  | 92 :: [] => None
  | c :: rest => if c <? 32 then None else scan_string (c :: acc) rest
  end.

Fixpoint take_digits (s : str) : str * str :=
  match s with
  | c :: rest =>
      if is_digit c then let (ds, r) := take_digits rest in (c :: ds, r) else ([], s)
  | [] => ([], [])
  end.

(** The number at the head of [s]: an optional minus, then [0] or digits
    that do not start with [0], then an optional fraction (a dot and
    digits) and an optional exponent ([e] or [E], a sign, digits). *)
Definition scan_number (s : str) : option (str * str) :=
  let (sign, s1) := match s with 45 :: r => ([45], r) | _ => ([], s) end in
  let int_part :=
    match s1 with
    | 48 :: r => Some ([48], r)
    | c :: _ => if is_digit c then Some (take_digits s1) else None
    | [] => None
    end in
  match int_part with
  | None => None
  | Some (ds, s2) =>
      let (frac, s3) :=
        match s2 with
        | 46 :: r =>
            match take_digits r with
            | ([], _) => ([], s2)
            | (fs, r') => (46 :: fs, r')
            end
        | _ => ([], s2)
        end in
      let (exp, s4) :=
        match s3 with
        | e :: r =>
            if (e =? 101) || (e =? 69) then
              let (esign, r1) :=
                match r with
                | c :: r' => if (c =? 43) || (c =? 45) then ([c], r') else ([], r)
                | [] => ([], r)
                end in
              match take_digits r1 with
              | ([], _) => ([], s3)
              | (es, r') => (e :: esign ++ es, r')
              end
            else ([], s3)
        | [] => ([], s3)
        end in
      Some (sign ++ ds ++ frac ++ exp, s4)
  end.

(** [d[k] = v] on a field list: an existing key keeps its place. *)
Fixpoint dict_set (k : str) (v : Json) (fields : list (str * Json)) : list (str * Json) :=
  match fields with
  | [] => [(k, v)]
  | (k', v') :: rest =>
      if bool_decide (k' = k) then (k', v) :: rest else (k', v') :: dict_set k v rest
  end.

Definition strip_prefix (p s : str) : option str :=
  if starts_with p s then Some (drop (length p) s) else None.

(** One value at the head of [s], and what follows it. *)
Fixpoint scan_value (fuel : nat) (s : str) : option (Json * str) :=
  match fuel with
  | O => None
  | S fuel =>
      match s with
      | 34 :: rest =>
          match scan_string [] rest with
          | Some (t, r) => Some (JStr t, r)
          | None => None
          end
      | 123 :: rest =>
          match skip_ws rest with
          | 125 :: r => Some (JObj [], r)
          | r =>
              match scan_members fuel [] r with
              | Some (fields, r') => Some (JObj fields, r')
              | None => None
              end
          end
      | 91 :: rest =>
          match skip_ws rest with
          | 93 :: r => Some (JArr [], r)
          | r =>
              match scan_items fuel [] r with
              | Some (items, r') => Some (JArr items, r')
              | None => None
              end
          end
      | _ =>
          match strip_prefix (lit "null") s, strip_prefix (lit "true") s,
                strip_prefix (lit "false") s with
          | Some r, _, _ => Some (JNull, r)
          | _, Some r, _ => Some (JBool true, r)
          | _, _, Some r => Some (JBool false, r)
          | _, _, _ =>
              match scan_number s with
              | Some (text, r) => Some (JNum text, r)
              | None =>
                  match strip_prefix (lit "NaN") s, strip_prefix (lit "Infinity") s,
                        strip_prefix (lit "-Infinity") s with
                  | Some r, _, _ => Some (JNum (lit "NaN"), r)
                  | _, Some r, _ => Some (JNum (lit "Infinity"), r)
                  | _, _, Some r => Some (JNum (lit "-Infinity"), r)
                  | _, _, _ => None
                  end
              end
          end
      end
  end

(** The items of an array from the first one on; [acc] holds the items
    read, last one first. *)
with scan_items (fuel : nat) (acc : list Json) (s : str) : option (list Json * str) :=
  match fuel with
  | O => None
  | S fuel =>
      match scan_value fuel s with
      | None => None
      | Some (v, r) =>
          match skip_ws r with
          | 44 :: r' => scan_items fuel (v :: acc) (skip_ws r')
          | 93 :: r' => Some (rev (v :: acc), r')
          | _ => None
          end
      end
  end

(** The members of an object from the first key on. *)
with scan_members (fuel : nat) (acc : list (str * Json)) (s : str)
    : option (list (str * Json) * str) :=
  match fuel with
  | O => None
  | S fuel =>
      match s with
      | 34 :: rest =>
          match scan_string [] rest with
          | None => None
          | Some (k, r) =>
              match skip_ws r with
              | 58 :: r1 =>
                  match scan_value fuel (skip_ws r1) with
                  | None => None
                  | Some (v, r2) =>
                      match skip_ws r2 with
                      | 44 :: r3 => scan_members fuel (dict_set k v acc) (skip_ws r3)
                      | 125 :: r3 => Some (dict_set k v acc, r3)
                      | _ => None
                      end
                  end
              | _ => None
              end
          end
      | _ => None
      end
  end.

(** [json.loads(s)]: one value, white space around it, nothing else. *)
Definition loads (s : str) : option Json :=
  match scan_value (2 * length s + 2) (skip_ws s) with
  | Some (v, r) => match skip_ws r with [] => Some v | _ => None end
  | None => None
  end.

(** [str(v)] for the values the examples print: [None], booleans and
    numbers; a list or a dictionary is shown as its JSON text here. *)
Definition format (v : Json) : str :=
  match v with
  | JNull => lit "None"
  | JBool true => lit "True"
  | JBool false => lit "False"
  | JStr s => s
  | JNum text => text
  | _ => dumps v
  end.

End JsonCodec.

(** ** An environment for the examples *)

(** Canned answers of the generator: [story_output] for the user-story
    request, and one fixed answer per role executor, told apart by the
    opening words of the request. *)
Definition canned_answer (story_output : list Block) (content : str) : list Block :=
  if starts_with (lit "Crea user story para: ") content then story_output
  else if starts_with (lit "Research for this feature:") content
    then [OtherBlock; TextBlock (lit "use a maintained OAuth2 library")]
  else if starts_with (lit "Analyze security requirements for:") content
    then [TextBlock (lit "store tokens encrypted")]
  else if starts_with (lit "User Story:") content
    then [TextBlock (lit "design:"); TextBlock (lit "one login endpoint")]
  else [TextBlock (lit "README section")].

(** A generator that never raises and gives the canned answers. *)
Definition canned_generator (story_output : list Block) (h : list Event) (req : GenRequest)
    : exn + list Block :=
  inr (canned_answer story_output (gen_user_content req)).

(** A hosting API that answers the head lookup with [head] and the ref
    creation with the status [create_status]. *)
Definition canned_get (head : HttpResponse) (h : list Event) (url : str)
    (headers : list (str * str)) : exn + HttpResponse := inr head.

Definition canned_post (create_status : N) (h : list Event) (url : str)
    (headers : list (str * str)) (payload : Json) : exn + HttpResponse :=
  inr {| status_code := create_status; json_body := None |}.

Definition example_env (story_output : list Block) (head : HttpResponse)
    (create_status : N) : Env :=
  {| unicode_lower := sample_unicode_lower;
     json_loads := JsonCodec.loads;
     json_dumps := JsonCodec.dumps;
     json_dumps_indent2 := JsonCodec.dumps_indent2;
     format_value := JsonCodec.format;
     set_to_list := remove_dups;
     set_to_list_NoDup := NoDup_remove_dups;
     set_to_list_elem := fun l x => elem_of_remove_dups l x;
     gsd_context_path := lit "/tmp/gsd_context.json";
     messages_create := canned_generator story_output;
     requests_get := canned_get head;
     requests_post := canned_post create_status;
     write_text := fun _ _ _ => inr tt |}.

(** The head of [main] as the hosting API reports it. *)
Definition head_found : HttpResponse :=
  {| status_code := 200;
     json_body := Some (JObj [ (lit "ref", JStr (lit "refs/heads/main"));
                               (lit "object", JObj [ (lit "sha", JStr (lit "4f2a9c1")) ]) ]) |}.


(** The members of a JSON object with the five fields of a user story. *)
Definition story_members (title summary : str) : str :=
  quote ++ lit "title" ++ quote ++ lit ": " ++ quote ++ title ++ quote ++ lit ", " ++
  quote ++ lit "summary" ++ quote ++ lit ": " ++ quote ++ summary ++ quote ++ lit ", " ++
  quote ++ lit "acceptance_criteria" ++ quote ++ lit ": [" ++
    quote ++ lit "works" ++ quote ++ lit "], " ++
  quote ++ lit "technical_notes" ++ quote ++ lit ": " ++ quote ++ quote ++ lit ", " ++
  quote ++ lit "estimated_complexity" ++ quote ++ lit ": " ++ quote ++ lit "low" ++ quote.

Definition story_lead : str := lit "Here is the user story: ".
Definition story_tail : str := lit " Let me know if it fits.".

(** A generator answer: one JSON object between two sentences of prose. *)
Definition story_text (title summary : str) : str :=
  story_lead ++ [lbrace] ++ story_members title summary ++ [rbrace] ++ story_tail.

(** The story that answer decodes to. *)
Definition story_value (title summary : str) : Json :=
  JObj [ (lit "title", JStr title);
         (lit "summary", JStr summary);
         (lit "acceptance_criteria", JArr [JStr (lit "works")]);
         (lit "technical_notes", JStr []);
         (lit "estimated_complexity", JStr (lit "low")) ].

Definition oauth_story : list Block :=
  [TextBlock (story_text (lit "Add OAuth2 login") (lit "As a user, I want to log in with OAuth2"))].

Definition typo_story : list Block :=
  [TextBlock (story_text (lit "Fix typo in README") (lit "As a reader, I want correct spelling"))].

Definition example_self : Orchestrator :=
  new_orchestrator (lit "ghp_example")
    [ (role_researcher, lit "You research.");
      (role_architect, lit "You design.");
      (role_documenter, lit "You document.") ].

(** A generator answer that is a JSON object with one field, of the wrong
    type. *)
Definition title_only_story : list Block :=
  [TextBlock (lit "{" ++ quote ++ lit "title" ++ quote ++ lit ": 7}")].


Definition example_repo : str := lit "your-org/your-repo".
Definition example_input : str := lit "Add OAuth2 login".

(** A run of [handle_request] in the example environment, from an empty
    history. *)
Definition example_run (story_output : list Block) (head : HttpResponse)
    (create_status : N) : (exn + str) * list Event :=
  handle_request (example_env story_output head create_status)
    example_self example_input example_repo [].

(** A run of the sequencer alone, for a story and a list of agents. *)
Definition example_sequencer_run (agents : list str) : (exn + gmap str str) * list Event :=
  _spawn_specialists_sequential (example_env oauth_story head_found 201) example_self
    (story_value (lit "Add OAuth2 login") (lit "As a user, I want to log in with OAuth2"))
    agents [].

(** The order of the stages as the overview of the specification gives it. *)
Definition overview_order : list Stage :=
  [Extractor; Router; Sequencer; BranchProvisioner; HandoffPublisher; CompletionWatcher].

(** The order of the stages in the code. *)
Definition coordinator_order : list Stage :=
  [Extractor; Router; BranchProvisioner; Sequencer; HandoffPublisher; CompletionWatcher].

(** ** The entry point *)

(** How [main] can end: with the [NameError] of a name that is not bound in
    the module, or with what [handle_request] raises. *)
Inductive main_exn : Type :=
| NameError (name : str)
| Propagated (e : exn).

(** The request and the repository [main] passes to [handle_request]. *)
Definition main_user_input : str :=
  lit "A" ++ n_tilde ++ lit "ade autenticaci" ++ o_acute ++ lit "n OAuth2 a la API".

Definition main_repo : str := lit "your-org/your-repo".

(** [main]: [github_token] and [anthropic_key] are what [os.getenv] gives for
    [GITHUB_TOKEN] and [ANTHROPIC_API_KEY], [prompt_files] the prompt files
    [Orchestrator.__init__] finds.  The module imports [asyncio], [os],
    [json], [Path], [typing], the generator client and [subprocess], and not
    [sys]: evaluating [sys.exit(1)] raises [NameError]. *)
Definition main (E : Env) (github_token anthropic_key : option str)
    (prompt_files : list (str * str)) : list Event -> (main_exn + unit) * list Event :=
  fun h =>
    if negb (truthy github_token) || negb (truthy anthropic_key) then
      (inl (NameError (lit "sys")),
       [EvPrint (lit "Error: Set GITHUB_TOKEN and ANTHROPIC_API_KEY environment variables")])
    else
      let orchestrator := new_orchestrator (default [] github_token) prompt_files in
      match handle_request E orchestrator main_user_input main_repo h with
      | (inr pr_url, evs) => (inr tt, evs ++ [EvPrint (lit "PR created: " ++ pr_url)])
      | (inl e, evs) => (inl (Propagated e), evs)
      end.

(** The requests a run sends to the generator. *)
Definition is_generate (e : Event) : bool :=
  match e with
  | EvGenerate _ => true
  | _ => false
  end.

Definition generates (evs : list Event) : list Event := List.filter is_generate evs.

(** The console lines of a run. *)
Fixpoint printed (evs : list Event) : list str :=
  match evs with
  | [] => []
  | EvPrint line :: rest => line :: printed rest
  | _ :: rest => printed rest
  end.

(** The prompt files of the example orchestrator. *)
Definition example_prompt_files : list (str * str) :=
  [ (role_researcher, lit "You research.");
    (role_architect, lit "You design.");
    (role_documenter, lit "You document.") ].

(** * Properties *)

(** ** Branch names *)

Example slugify_oauth :
  _slugify sample_unicode_lower (lit "Add OAuth2 login!") = lit "add-oauth2-login".
Proof. reflexivity. Qed.

Example slugify_edges :
  _slugify sample_unicode_lower (lit "--  Fix:  typo (README) --") = lit "fix-typo-readme".
Proof. reflexivity. Qed.

(** A letter outside [a-z] is a separator like any other character that is
    not a lower-case ASCII letter or a digit. *)
Example slugify_accent :
  _slugify sample_unicode_lower (lit "A" ++ n_tilde ++ lit "ade login") = lit "a-ade-login".
Proof. reflexivity. Qed.

Example slugify_kelvin :
  _slugify sample_unicode_lower ([8490] ++ lit " scale") = lit "k-scale".
Proof. reflexivity. Qed.


Lemma dash_not_slug_char : is_slug_char dash = false.
Proof. reflexivity. Qed.

Lemma slug_or_dash_ascii c : slug_or_dash c -> (c <? 128) = true /\ is_ascii_upper c = false.
Proof.
  unfold slug_or_dash, is_slug_char, is_ascii_lower, is_digit, is_ascii_upper, dash.
  intros [H | ->]; [| split; reflexivity].
  rewrite orb_true_iff, !andb_true_iff, !N.leb_le in H.
  rewrite N.ltb_lt, andb_false_iff, !N.leb_gt. lia.
Qed.

Section SlugLemmas.

Variable ul : str -> str -> N -> str.

Lemma lower_from_slug before s :
  Forall slug_or_dash s -> lower_from ul before s = s.
Proof.
  intros Hs. revert before.
  induction Hs as [| c s Hc _ IH]; intros before; simpl; [reflexivity |].
  destruct (slug_or_dash_ascii c Hc) as [-> Hup].
  unfold ascii_lower. rewrite Hup. simpl. by rewrite IH.
Qed.

Lemma sub_runs_chars b s : Forall slug_or_dash (sub_runs b s).
Proof.
  revert b. induction s as [| c s IH]; intros b; simpl; [constructor |].
  destruct (is_slug_char c) eqn:Hc.
  - constructor; [by left | apply IH].
  - destruct b; [apply IH |]. constructor; [by right | apply IH].
Qed.

Lemma sub_runs_true_head s : head (sub_runs true s) <> Some dash.
Proof.
  induction s as [| c s IH]; simpl; [done |].
  destruct (is_slug_char c) eqn:Hc; [| exact IH].
  simpl. intros [= ->]. by rewrite dash_not_slug_char in Hc.
Qed.

Lemma sub_runs_separated b s : separated (sub_runs b s).
Proof.
  revert b. induction s as [| c s IH]; intros b; simpl; [done |].
  destruct (is_slug_char c) eqn:Hc.
  - simpl. split; [| apply IH]. intros ->. by rewrite dash_not_slug_char in Hc.
  - destruct b; [apply IH |]. simpl. split; [| apply IH].
    intros _. apply sub_runs_true_head.
Qed.

(** On a string that has the shape already, the substitution changes
    nothing. *)
Lemma sub_runs_fixed b s :
  Forall slug_or_dash s -> separated s ->
  (b = true -> head s <> Some dash) ->
  sub_runs b s = s.
Proof.
  intros Hs. revert b. induction Hs as [| c s Hc _ IH]; intros b Hsep Hb; [reflexivity |].
  simpl in *. destruct Hsep as [Hd Hsep].
  destruct (is_slug_char c) eqn:Hsc.
  - f_equal. apply IH; [done | discriminate].
  - destruct Hc as [Hc | ->]; [congruence |].
    destruct b; [by destruct Hb |].
    f_equal. apply IH; [done | intros _; by apply Hd].
Qed.

End SlugLemmas.

(** *** Stripping *)

Lemma lstrip_head ch s : head (lstrip ch s) <> Some ch.
Proof.
  induction s as [| c s IH]; simpl; [done |].
  destruct (c =? ch) eqn:Hc; [exact IH |].
  simpl. intros [= ->]. by rewrite N.eqb_refl in Hc.
Qed.

Lemma lstrip_fixed ch s : head s <> Some ch -> lstrip ch s = s.
Proof.
  destruct s as [| c s]; simpl; [done |]. intros Hh.
  destruct (c =? ch) eqn:Hc; [| done].
  apply N.eqb_eq in Hc. by subst.
Qed.

Lemma lstrip_suffix ch s : exists pre, s = pre ++ lstrip ch s.
Proof.
  induction s as [| c s [pre IH]]; simpl; [by exists [] |].
  destruct (c =? ch); [| by exists []].
  exists (c :: pre). simpl. by rewrite <- IH.
Qed.

Lemma rstrip_snoc ch s c :
  rstrip ch (s ++ [c]) = if c =? ch then rstrip ch s else s ++ [c].
Proof.
  unfold rstrip. rewrite rev_app_distr. simpl.
  destruct (c =? ch); [done |].
  simpl. by rewrite rev_involutive.
Qed.

Lemma rstrip_prefix ch s : exists post, s = rstrip ch s ++ post.
Proof.
  induction s as [| c s [post IH]] using rev_ind; [by exists [] |].
  rewrite rstrip_snoc. destruct (c =? ch); [| exists []; by rewrite app_nil_r].
  exists (post ++ [c]). by rewrite app_assoc, <- IH.
Qed.

Lemma rstrip_last ch s : last (rstrip ch s) <> Some ch.
Proof.
  induction s as [| c s IH] using rev_ind; [done |].
  rewrite rstrip_snoc. destruct (c =? ch) eqn:Hc; [exact IH |].
  rewrite last_snoc. intros [= ->]. by rewrite N.eqb_refl in Hc.
Qed.

Lemma rstrip_fixed ch s : last s <> Some ch -> rstrip ch s = s.
Proof.
  destruct s as [| c s _] using rev_ind; [done |].
  rewrite last_snoc, rstrip_snoc. intros Hl.
  destruct (c =? ch) eqn:Hc; [| done].
  apply N.eqb_eq in Hc. by subst.
Qed.

Lemma rstrip_head ch s : head s <> Some ch -> head (rstrip ch s) <> Some ch.
Proof.
  destruct (rstrip_prefix ch s) as [post Hs]. intros Hh.
  destruct (rstrip ch s) as [| c r]; [done |].
  rewrite Hs in Hh. exact Hh.
Qed.

Lemma separated_app_l s t : separated (s ++ t) -> separated s.
Proof.
  induction s as [| c s IH]; simpl; [done |].
  intros [Hd Hs]. split; [| by apply IH].
  intros Hc. specialize (Hd Hc). destruct s; [done | exact Hd].
Qed.

Lemma separated_app_r s t : separated (s ++ t) -> separated t.
Proof. induction s as [| c s IH]; simpl; [done |]. intros [_ Hs]. by apply IH. Qed.

Lemma strip_is_slug s :
  Forall slug_or_dash s -> separated s -> is_slug (strip dash s).
Proof.
  intros Hall Hsep. unfold strip.
  destruct (lstrip_suffix dash s) as [pre Hpre].
  destruct (rstrip_prefix dash (lstrip dash s)) as [post Hpost].
  assert (Forall slug_or_dash (lstrip dash s)) as Hall'.
  { rewrite Hpre in Hall. by apply Forall_app in Hall as [_ ?]. }
  assert (separated (lstrip dash s)) as Hsep'.
  { rewrite Hpre in Hsep. by apply separated_app_r in Hsep. }
  split.
  - rewrite Hpost in Hall'. by apply Forall_app in Hall' as [? _].
  - rewrite Hpost in Hsep'. by apply separated_app_l in Hsep'.
  - apply rstrip_head, lstrip_head.
  - apply rstrip_last.
Qed.

Lemma strip_fixed ch s :
  head s <> Some ch -> last s <> Some ch -> strip ch s = s.
Proof.
  intros Hh Hl. unfold strip. rewrite (lstrip_fixed ch s Hh). by apply rstrip_fixed.
Qed.

Lemma slugify_is_slug ul text : is_slug (_slugify ul text).
Proof.
  unfold _slugify, re_sub_non_alnum.
  apply strip_is_slug; [apply sub_runs_chars | apply sub_runs_separated].
Qed.

Lemma slugify_fixed ul s : is_slug s -> _slugify ul s = s.
Proof.
  intros [Hall Hsep Hh Hl]. unfold _slugify, py_lower, re_sub_non_alnum.
  rewrite lower_from_slug by done.
  rewrite sub_runs_fixed by done.
  by apply strip_fixed.
Qed.

(** A separator pair anywhere contradicts [separated]. *)
Lemma separated_no_pair s pre post : separated s -> s <> pre ++ [dash; dash] ++ post.
Proof.
  intros Hsep ->. apply separated_app_r in Hsep.
  simpl in Hsep. destruct Hsep as [Hd _]. by apply Hd.
Qed.

(** *** The slug as the words of the title *)

Lemma lstrip_dashes ch pre s : Forall (eq ch) pre -> lstrip ch (pre ++ s) = lstrip ch s.
Proof.
  induction 1 as [| c pre <- _ IH]; [done |]. simpl. by rewrite N.eqb_refl.
Qed.

Lemma rstrip_dashes ch s post : Forall (eq ch) post -> rstrip ch (s ++ post) = rstrip ch s.
Proof.
  induction post as [| c post IH] using rev_ind; intros Hp; [by rewrite app_nil_r |].
  apply Forall_app in Hp as [Hp Hc]. inversion Hc; subst.
  by rewrite app_assoc, rstrip_snoc, N.eqb_refl, IH.
Qed.

Lemma strip_padding ch pre s post :
  Forall (eq ch) pre -> Forall (eq ch) post ->
  head s <> Some ch -> last s <> Some ch ->
  strip ch (pre ++ s ++ post) = s.
Proof.
  intros Hpre Hpost Hh Hl. unfold strip. rewrite lstrip_dashes by done.
  destruct s as [| c s].
  - simpl. replace post with (post ++ []) by apply app_nil_r.
    rewrite lstrip_dashes by done. reflexivity.
  - rewrite lstrip_fixed by done. rewrite rstrip_dashes by done.
    by apply rstrip_fixed.
Qed.

Lemma alnum_runs_words cur s :
  Forall (fun c => is_slug_char c = true) cur -> Forall is_word (alnum_runs cur s).
Proof.
  revert cur. induction s as [| c s IH]; intros cur Hcur; simpl.
  - destruct cur as [| a cur]; [constructor |].
    constructor; [| constructor]. split.
    + simpl. by destruct (rev cur).
    + by apply Forall_rev.
  - destruct (is_slug_char c) eqn:Hc; [apply IH; by constructor |].
    destruct cur as [| a cur]; [apply IH; constructor |].
    constructor; [| apply IH; constructor]. split.
    + simpl. by destruct (rev cur).
    + by apply Forall_rev.
Qed.

Lemma word_head w : is_word w -> exists c r, w = c :: r /\ c <> dash.
Proof.
  intros [Hne Hall]. destruct w as [| c r]; [done |].
  exists c, r. split; [done |]. inversion Hall; subst.
  intros ->. by rewrite dash_not_slug_char in *.
Qed.

Lemma word_last w : is_word w -> exists r c, w = r ++ [c] /\ c <> dash.
Proof.
  intros [Hne Hall]. destruct w as [| c r _] using rev_ind; [done |].
  exists r, c. split; [done |]. apply Forall_app in Hall as [_ Hc].
  inversion Hc; subst. intros ->. by rewrite dash_not_slug_char in *.
Qed.

Lemma join_words_ends ws :
  Forall is_word ws ->
  head (str_join [dash] ws) <> Some dash /\ last (str_join [dash] ws) <> Some dash.
Proof.
  induction 1 as [| w ws Hw Hws [IHh IHl]]; [done |].
  destruct ws as [| w' ws].
  - simpl. destruct (word_head _ Hw) as (c & r & -> & Hc).
    destruct (word_last _ Hw) as (r' & c' & Heq & Hc'). split.
    + simpl. congruence.
    + rewrite Heq, last_snoc. congruence.
  - change (str_join [dash] (w :: w' :: ws))
      with (w ++ [dash] ++ str_join [dash] (w' :: ws)).
    split.
    + destruct (word_head _ Hw) as (c & r & -> & Hc). simpl. congruence.
    + inversion Hws as [| ? ? Hw' _]; subst.
      destruct (str_join [dash] (w' :: ws)) as [| x xs _] eqn:Hj using rev_ind.
      * destruct (word_head _ Hw') as (c & r & -> & _). simpl in Hj.
        destruct ws; discriminate.
      * rewrite !app_assoc, last_snoc. by rewrite last_snoc in IHl.
Qed.

(** The substitution gives the words joined by the separator, with at most
    some separators before and after. *)
Lemma sub_runs_words s :
  (forall cur, cur <> [] ->
     exists post, Forall (eq dash) post /\
       rev cur ++ sub_runs false s = str_join [dash] (alnum_runs cur s) ++ post) /\
  (exists post, Forall (eq dash) post /\
     sub_runs true s = str_join [dash] (alnum_runs [] s) ++ post).
Proof.
  induction s as [| c s [IH1 IH2]]; split.
  - intros cur Hcur. exists []. split; [constructor |]. simpl.
    destruct cur; [done |]. by rewrite !app_nil_r.
  - by exists [].
  - intros cur Hcur. simpl. destruct (is_slug_char c) eqn:Hc.
    + destruct (IH1 (c :: cur)) as (post & Hpost & Heq); [done |].
      exists post. split; [done |]. rewrite <- Heq. simpl. by rewrite <- app_assoc.
    + destruct IH2 as (post & Hpost & Heq). rewrite Heq.
      destruct cur as [| a cur]; [done |].
      destruct (alnum_runs [] s) as [| w ws] eqn:Hruns.
      * exists (dash :: post). split; [by constructor |]. reflexivity.
      * exists post. split; [done |].
        change (str_join [dash] (rev (a :: cur) :: w :: ws))
          with (rev (a :: cur) ++ [dash] ++ str_join [dash] (w :: ws)).
        by rewrite <- !app_assoc.
  - simpl. destruct (is_slug_char c) eqn:Hc.
    + destruct (IH1 [c]) as (post & Hpost & Heq); [done |]. by exists post.
    + exact IH2.
Qed.

Lemma slugify_words ul text :
  _slugify ul text = str_join [dash] (alnum_runs [] (py_lower ul text)).
Proof.
  unfold _slugify, re_sub_non_alnum. set (s := py_lower ul text).
  assert (exists pre post, Forall (eq dash) pre /\ Forall (eq dash) post /\
            sub_runs false s = pre ++ str_join [dash] (alnum_runs [] s) ++ post)
    as (pre & post & Hpre & Hpost & ->).
  { destruct s as [| c s]; [by exists [], [] |].
    simpl. destruct (is_slug_char c) eqn:Hc.
    - destruct (sub_runs_words s) as [H1 _].
      destruct (H1 [c]) as (post & Hpost & Heq); [done |].
      exists [], post. by repeat split.
    - destruct (sub_runs_words s) as [_ (post & Hpost & Heq)].
      exists [dash], post. rewrite Heq. repeat split; [by repeat constructor | done]. }
  destruct (join_words_ends (alnum_runs [] s)) as [Hh Hl].
  { apply alnum_runs_words. constructor. }
  by apply strip_padding.
Qed.

(** ** Runs *)

Lemma calls_app evs evs' : calls (evs ++ evs') = calls evs ++ calls evs'.
Proof.
  induction evs as [| e evs IH]; [done |].
  destruct e; simpl; by rewrite ?IH.
Qed.

Lemma executor_marks_app evs evs' :
  executor_marks (evs ++ evs') = executor_marks evs ++ executor_marks evs'.
Proof.
  induction evs as [| e evs IH]; [done |].
  destruct e as [| m ? | m ? | | | |]; simpl; try done;
    destruct (executor_role m); simpl; by rewrite IH.
Qed.

(** What a bind did, read back from its outcome. *)
Lemma bind_run {A B : Type} (m : M A) (k : A -> M B) h r evs :
  bind m k h = (r, evs) ->
  (exists e, m h = (inl e, evs) /\ r = inl e) \/
  (exists x evs1 evs2,
      m h = (inr x, evs1) /\ k x (h ++ evs1) = (r, evs2) /\ evs = evs1 ++ evs2).
Proof.
  unfold bind. destruct (m h) as [[e | x] evs1].
  - intros [= <- <-]. left. by exists e.
  - destruct (k x (h ++ evs1)) as [r' evs2] eqn:Hk.
    intros [= <- <-]. right. by exists x, evs1, evs2.
Qed.

Lemma bind_run_inr {A B : Type} (m : M A) (k : A -> M B) h y evs :
  bind m k h = (inr y, evs) ->
  exists x evs1 evs2,
    m h = (inr x, evs1) /\ k x (h ++ evs1) = (inr y, evs2) /\ evs = evs1 ++ evs2.
Proof.
  intros H. apply bind_run in H as [(e & _ & [=]) | H]. exact H.
Qed.

Lemma method_run {A : Type} m args (inj : A -> Value) (body : M A) h :
  method m args inj body h =
    match body (h ++ [EvCall m args]) with
    | (inr x, evs) => (inr x, EvCall m args :: evs ++ [EvReturn m (inj x)])
    | (inl e, evs) => (inl e, EvCall m args :: evs)
    end.
Proof.
  unfold method, bind, emit, ret.
  destruct (body (h ++ [EvCall m args])) as [[e | x] evs]; reflexivity.
Qed.

Lemma emits_ret {A : Type} P (x : A) : emits P (ret x).
Proof. intros h r evs [= <- <-]. constructor. Qed.

Lemma emits_raise {A : Type} P e : emits P (@raise A e).
Proof. intros h r evs [= <- <-]. constructor. Qed.

Lemma emits_lift {A : Type} P (x : exn + A) : emits P (lift x).
Proof. intros h r evs [= <- <-]. constructor. Qed.

Lemma emits_emit (P : Event -> Prop) e : P e -> emits P (emit e).
Proof. intros He h r evs [= <- <-]. by repeat constructor. Qed.

Lemma emits_bind {A B : Type} P (m : M A) (k : A -> M B) :
  emits P m -> (forall x, emits P (k x)) -> emits P (bind m k).
Proof.
  intros Hm Hk h r evs H.
  apply bind_run in H as [(e & H & _) | (x & evs1 & evs2 & H1 & H2 & ->)].
  - by eapply Hm.
  - apply Forall_app. split; [by eapply Hm | by eapply Hk].
Qed.

Lemma emits_method {A : Type} (P : Event -> Prop) m args (inj : A -> Value) body :
  P (EvCall m args) -> (forall v, P (EvReturn m v)) -> emits P body ->
  emits P (method m args inj body).
Proof.
  intros Hc Hr Hb. unfold method.
  repeat first [ apply emits_bind; [| intros ?] | apply emits_emit | apply emits_ret ];
    auto.
Qed.

(** ** The role router *)

Lemma starts_with_spec p s : starts_with p s = true <-> exists after, s = p ++ after.
Proof.
  revert s. induction p as [| a p IH]; intros s; simpl.
  - split; [intros _; by exists s | done].
  - destruct s as [| b s]; simpl.
    + split; [done | intros [after [=]]].
    + rewrite andb_true_iff, N.eqb_eq, IH. split.
      * intros [-> [after ->]]. by exists after.
      * intros [after [= -> ->]]. split; [done | by exists after].
Qed.

Lemma contains_spec text w : contains text w = true <-> occurs w text.
Proof.
  unfold occurs. induction text as [| c text IH]; simpl.
  - rewrite orb_false_r, starts_with_spec. split.
    + intros [after H]. by exists [], after.
    + intros (before & after & H). destruct before as [| ? ?]; [| done].
      by exists after.
  - rewrite orb_true_iff, starts_with_spec, IH. split.
    + intros [[after H] | (before & after & ->)].
      * by exists [], after.
      * by exists (c :: before), after.
    + intros (before & after & H). destruct before as [| b before].
      * left. by exists after.
      * right. simpl in H. simplify_eq. by exists before, after.
Qed.

Lemma any_in_spec text words :
  any_in text words = true <-> exists w, w ∈ words /\ occurs w text.
Proof.
  unfold any_in. rewrite existsb_exists. split.
  - intros (w & Hin & Hc). exists w. split; [by apply list_elem_of_In | by apply contains_spec].
  - intros (w & Hin & Hc). exists w. split; [by apply list_elem_of_In | by apply contains_spec].
Qed.

Lemma roles_distinct : NoDup roles.
Proof. apply (bool_decide_unpack _). vm_compute. exact I. Qed.

(** C4: whatever the story, the router's answer holds architect and
    documenter; it holds researcher exactly when a new-feature keyword
    occurs in the lower-cased serialised story, and security exactly when a
    sensitive-data keyword occurs there; it holds no role twice and nothing
    but the four roles. *)
Theorem decide_agents_roles (E : Env) (user_story : Json) :
  let story_text := py_lower (unicode_lower E) (json_dumps E user_story) in
  let agents := _decide_agents E user_story in
  role_architect ∈ agents /\
  role_documenter ∈ agents /\
  (role_researcher ∈ agents <->
     exists w, w ∈ new_feature_keywords /\ occurs w story_text) /\
  (role_security ∈ agents <->
     exists w, w ∈ sensitive_keywords /\ occurs w story_text) /\
  NoDup agents /\
  (forall r, r ∈ agents -> r ∈ roles).
Proof.
  intros story_text agents. subst agents. unfold _decide_agents.
  fold story_text. rewrite <- !any_in_spec.
  assert (role_researcher <> role_architect /\ role_researcher <> role_documenter /\
          role_researcher <> role_security /\ role_architect <> role_security /\
          role_documenter <> role_security) as (H1 & H2 & H3 & H4 & H5).
  { repeat split; intros Heq; vm_compute in Heq; discriminate Heq. }
  destruct (any_in story_text new_feature_keywords),
           (any_in story_text sensitive_keywords); cbn [app];
    (split; [| split; [| split; [| split; [| split]]]]);
    try apply set_to_list_NoDup;
    try (intros r); unfold roles;
    rewrite set_to_list_elem, ?elem_of_cons, ?elem_of_nil;
    intuition congruence.
Qed.

(** ** The specification extractor *)

Lemma from_first_Some ch s before rest :
  s = before ++ ch :: rest -> ch ∉ before -> from_first ch s = Some rest.
Proof.
  intros -> Hb. induction before as [| c before IH]; simpl.
  - by rewrite N.eqb_refl.
  - apply not_elem_of_cons in Hb as [Hc Hb].
    destruct (c =? ch) eqn:Heq; [apply N.eqb_eq in Heq; by subst | by apply IH].
Qed.

Lemma from_first_inv ch s rest :
  from_first ch s = Some rest -> exists before, s = before ++ ch :: rest.
Proof.
  induction s as [| c s IH]; simpl; [done |].
  destruct (c =? ch) eqn:Heq.
  - apply N.eqb_eq in Heq as ->. intros [= ->]. by exists [].
  - intros H. destruct (IH H) as [before ->]. by exists (c :: before).
Qed.

Lemma upto_last_Some ch s body after :
  s = body ++ ch :: after -> ch ∉ after -> upto_last ch s = Some body.
Proof.
  intros -> Ha. unfold upto_last.
  rewrite (from_first_Some ch _ (rev after) (rev body)).
  - by rewrite rev_involutive.
  - rewrite rev_app_distr. simpl. by rewrite <- app_assoc.
  - rewrite list_elem_of_In, <- in_rev, <- list_elem_of_In. done.
Qed.

Lemma upto_last_inv ch s body :
  upto_last ch s = Some body -> exists after, s = body ++ ch :: after.
Proof.
  unfold upto_last. destruct (from_first ch (rev s)) as [r |] eqn:Hr; [| done].
  intros [= <-]. apply from_first_inv in Hr as [before Hr].
  exists (rev before). apply (f_equal (@rev N)) in Hr.
  rewrite rev_involutive, rev_app_distr in Hr. simpl in Hr.
  by rewrite <- app_assoc in Hr.
Qed.

(** The match of the search is the text from the first opening brace to
    the last closing brace. *)
Lemma re_search_braces_span content before span after :
  content = before ++ [lbrace] ++ span ++ [rbrace] ++ after ->
  lbrace ∉ before -> rbrace ∉ after ->
  re_search_braces content = Some ([lbrace] ++ span ++ [rbrace]).
Proof.
  intros -> Hb Ha. unfold re_search_braces.
  rewrite (from_first_Some lbrace _ before (span ++ [rbrace] ++ after)) by done.
  by rewrite (upto_last_Some rbrace _ span after).
Qed.

Lemma re_search_braces_None content :
  (~ exists before span after, content = before ++ [lbrace] ++ span ++ [rbrace] ++ after) ->
  re_search_braces content = None.
Proof.
  intros Hno. unfold re_search_braces.
  destruct (from_first lbrace content) as [rest |] eqn:Hf; [| done].
  destruct (upto_last rbrace rest) as [body |] eqn:Hu; [| done].
  destruct Hno. apply from_first_inv in Hf as [before ->].
  apply upto_last_inv in Hu as [after ->]. by exists before, body, after.
Qed.

(** What the extractor gives, from what the generator answered. *)
Lemma create_user_story_result E user_input h :
  (_create_user_story E user_input h).1 =
    match messages_create E (h ++ [EvCall m_create_user_story [VStr user_input]])
            (user_story_request user_input) with
    | inl e => inl e
    | inr response =>
        match first_block_text response with
        | inl e => inl e
        | inr content =>
            match re_search_braces content with
            | Some json_match =>
                match json_loads E json_match with
                | Some v => inr v
                | None => inl JSONDecodeError
                end
            | None => inl (ValueError (lit "No JSON found in response"))
            end
        end
    end.
Proof.
  unfold _create_user_story. rewrite method_run.
  unfold bind, generate, lift.
  destruct (messages_create E _ _) as [e | response]; [done |].
  destruct (first_block_text response) as [e | content]; [done |].
  destruct (re_search_braces content) as [json_match |]; [| done].
  by destruct (json_loads E json_match).
Qed.

(** C1, as the code has it: when the first content block of the generator's
    answer is text, the extractor decodes the text from the first opening
    brace to the last closing brace and returns what [json.loads] gives,
    unchanged and without looking at its fields; a span that does not decode
    is a [JSONDecodeError].  When the text holds no opening brace with a
    closing brace after it, the extractor raises
    [ValueError("No JSON found in response")]. *)
Theorem create_user_story_decodes_brace_span
    (E : Env) (user_input : str) (h : list Event) (content : str) (more : list Block) :
  messages_create E (h ++ [EvCall m_create_user_story [VStr user_input]])
    (user_story_request user_input) = inr (TextBlock content :: more) ->
  (forall before span after,
      content = before ++ [lbrace] ++ span ++ [rbrace] ++ after ->
      lbrace ∉ before -> rbrace ∉ after ->
      (_create_user_story E user_input h).1 =
        match json_loads E ([lbrace] ++ span ++ [rbrace]) with
        | Some v => inr v
        | None => inl JSONDecodeError
        end) /\
  ((~ exists before span after,
        content = before ++ [lbrace] ++ span ++ [rbrace] ++ after) ->
   (_create_user_story E user_input h).1 =
     inl (ValueError (lit "No JSON found in response"))).
Proof.
  intros Hgen. rewrite create_user_story_result, Hgen. simpl. split.
  - intros before span after Hc Hb Ha.
    by rewrite (re_search_braces_span content before span after).
  - intros Hno. by rewrite re_search_braces_None.
Qed.

(** The theorem at work: the object between two sentences of prose is what
    the extractor returns. *)
Lemma create_user_story_decodes_brace_span_witness :
  (_create_user_story (example_env oauth_story head_found 201) example_input []).1 =
    inr (story_value (lit "Add OAuth2 login") (lit "As a user, I want to log in with OAuth2")).
Proof.
  rewrite (proj1 (create_user_story_decodes_brace_span
                    (example_env oauth_story head_found 201) example_input []
                    (story_text (lit "Add OAuth2 login")
                       (lit "As a user, I want to log in with OAuth2")) []
                    eq_refl)
             story_lead
             (story_members (lit "Add OAuth2 login")
                (lit "As a user, I want to log in with OAuth2"))
             story_tail eq_refl).
  - reflexivity.
  - apply (bool_decide_unpack _). vm_compute. exact I.
  - apply (bool_decide_unpack _). vm_compute. exact I.
Defined.

(** C1 as stated fails: for a generator answer that is a JSON object with
    four of the five fields missing and the fifth of the wrong type, the
    extractor raises nothing and returns the object as it is.  The run then
    ends in the coordinator, with the [KeyError] of the first field it
    reads. *)
Lemma extractor_returns_object_without_fields :
  (_create_user_story (example_env title_only_story head_found 201) example_input []).1 =
    inr (JObj [(lit "title", JNum (lit "7"))]) /\
  (handle_request (example_env title_only_story head_found 201)
     example_self example_input example_repo []).1 = inl (KeyError (lit "summary")).
Proof. split; reflexivity. Qed.

(** ** Branch names, continued *)

Lemma invoke_slugify_run E title h :
  invoke_slugify E (JStr title) h =
    (inr (_slugify (unicode_lower E) title),
     [EvCall m_slugify [VJson (JStr title)];
      EvReturn m_slugify (VStr (_slugify (unicode_lower E) title))]).
Proof. unfold invoke_slugify. by rewrite method_run. Qed.

(** C7: the slug of a title is a function of the title alone, whatever has
    happened in the run; slugifying a slug gives it back; a slug is made of
    lower-case letters, digits and separators, it is the words of the
    lower-cased title (its maximal runs of letters and digits) joined by
    single separators, so it has no two separators in a row and none at
    either end; the branch name is the slug after ["feature/"]. *)
Theorem slugify_deterministic_idempotent (E : Env) (title : str) :
  let slug := _slugify (unicode_lower E) title in
  (forall h, (invoke_slugify E (JStr title) h).1 = inr slug) /\
  _slugify (unicode_lower E) slug = slug /\
  Forall (fun c => is_ascii_lower c = true \/ is_digit c = true \/ c = dash) slug /\
  slug = str_join [dash] (alnum_runs [] (py_lower (unicode_lower E) title)) /\
  (forall before after, slug <> before ++ [dash; dash] ++ after) /\
  head slug <> Some dash /\
  last slug <> Some dash /\
  branch_name_of (unicode_lower E) title = lit "feature/" ++ slug.
Proof.
  intros slug. pose proof (slugify_is_slug (unicode_lower E) title) as Hs.
  fold slug in Hs. destruct Hs as [Hall Hsep Hh Hl].
  split; [intros h; by rewrite invoke_slugify_run |].
  split; [by apply slugify_fixed |].
  split.
  { eapply Forall_impl; [exact Hall |]. intros c [Hc | ->]; [| auto].
    unfold is_slug_char in Hc. apply orb_true_iff in Hc. tauto. }
  split; [apply slugify_words |].
  split; [intros before after; by apply separated_no_pair |].
  done.
Qed.

Lemma sub_runs_no_slug_char b s :
  Forall (fun c => is_slug_char c = false) s -> Forall (eq dash) (sub_runs b s).
Proof.
  intros Hs. revert b. induction Hs as [| c s Hc _ IH]; intros b; simpl; [constructor |].
  rewrite Hc. destruct b; [apply IH |]. constructor; [done | apply IH].
Qed.

Lemma strip_all ch s : Forall (eq ch) s -> strip ch s = [].
Proof.
  intros Hs. unfold strip. replace s with (s ++ []) by apply app_nil_r.
  by rewrite lstrip_dashes.
Qed.


(** ** The handoff publisher *)

Lemma roles_payload_keys :
  payload_key role_researcher = lit "research" /\
  payload_key role_architect = lit "architecture" /\
  payload_key role_documenter = lit "documentation" /\
  payload_key role_security = lit "security".
Proof. repeat split; reflexivity. Qed.

Lemma execute_gsd_run E user_story context repo branch h :
  let content := json_dumps_indent2 E (gsd_payload user_story context) in
  let written := write_text E
      (h ++ [EvCall m_execute_gsd [VJson user_story; VDict context; VStr repo; VStr branch]])
      (gsd_context_path E) content in
  _execute_gsd E user_story context repo branch h =
    match written with
    | inr _ =>
        (inr tt,
         [ EvCall m_execute_gsd [VJson user_story; VDict context; VStr repo; VStr branch];
           EvWriteText (gsd_context_path E) content;
           EvPrint (lit "  [5] GSD would execute here with context from specialists");
           EvPrint (lit "  Context saved to: " ++ gsd_context_path E);
           EvReturn m_execute_gsd VNone ])
    | inl e =>
        (inl e,
         [ EvCall m_execute_gsd [VJson user_story; VDict context; VStr repo; VStr branch];
           EvWriteText (gsd_context_path E) content ])
    end.
Proof.
  intros content written. unfold _execute_gsd. rewrite method_run.
  unfold bind, path_write_text, print_, emit. fold content. fold written.
  by destruct written as [e | []].
Qed.

(** C8: whatever the story and the context, the publisher makes one call
    that leaves the process, the write of one payload; the payload is a
    dictionary of five entries, the story under ['user_story'] and one entry
    per role, which holds the output of the role when the context has one
    and [None] (JSON [null]) when it has not. *)
Theorem execute_gsd_writes_one_payload
    (E : Env) (user_story : Json) (context : gmap str str) (repo branch : str)
    (h : list Event) :
  let payload := gsd_payload user_story context in
  List.filter is_external (_execute_gsd E user_story context repo branch h).2 =
    [EvWriteText (gsd_context_path E) (json_dumps_indent2 E payload)] /\
  (exists fields, payload = JObj fields /\ length fields = 5%nat) /\
  subscript payload (lit "user_story") = inr user_story /\
  (forall role, role ∈ roles ->
     subscript payload (payload_key role) =
       inr (match context !! role with
            | Some output => JStr output
            | None => JNull
            end)).
Proof.
  intros payload. split; [| split; [| split]].
  - rewrite execute_gsd_run. by destruct (write_text E _ _ _).
  - by eexists.
  - reflexivity.
  - intros role Hrole. unfold roles in Hrole.
    rewrite !elem_of_cons, elem_of_nil in Hrole.
    destruct Hrole as [-> | [-> | [-> | [-> | []]]]]; reflexivity.
Qed.

(** ** The completion watcher *)

Lemma wait_for_pr_run repo branch h :
  _wait_for_pr repo branch h =
    (inr (pr_placeholder repo),
     [ EvCall m_wait_for_pr [VStr repo; VStr branch];
       EvReturn m_wait_for_pr (VStr (pr_placeholder repo)) ]).
Proof. unfold _wait_for_pr. by rewrite method_run. Qed.

(** ** The role executors and the sequencer *)



(** Reading the outcome of a computation back, bind by bind. *)
Ltac run_step :=
  match goal with
  | H : emit _ _ = _ |- _ => unfold emit in H; simplify_eq
  | H : print_ _ _ = _ |- _ => unfold print_, emit in H; simplify_eq
  | H : ret _ _ = _ |- _ => unfold ret in H; simplify_eq
  | H : raise _ _ = _ |- _ => unfold raise in H; simplify_eq
  | H : lift _ _ = _ |- _ => unfold lift in H; simplify_eq
  | H : bind _ _ _ = (inr _, _) |- _ =>
      apply bind_run_inr in H as (? & ? & ? & ? & ? & ->)
  | H : bind _ _ _ = _ |- _ =>
      apply bind_run in H as [(? & ? & ->) | (? & ? & ? & ? & ? & ->)]
  end.

Ltac run_inv := repeat run_step.

Ltac rewrite_hyp :=
  match goal with H : executor_marks _ = _ |- _ => rewrite H end.

Section Executors.

Variable E : Env.
Variable self : Orchestrator.

Lemma spawn_researcher_run user_story h :
  _spawn_researcher E self user_story h =
    match prompts self !! role_researcher with
    | Some system =>
        executor_run m_spawn_researcher [VJson user_story]
          (researcher_request E system user_story) E h
    | None => (inl (KeyError role_researcher), [EvCall m_spawn_researcher [VJson user_story]])
    end.
Proof.
  unfold _spawn_researcher, executor_run. rewrite method_run.
  unfold bind, prompt_of, generate.
  destruct (prompts self !! role_researcher) as [system |]; [| done].
  simpl. rewrite app_nil_r. by destruct (messages_create E _ _).
Qed.

Lemma spawn_security_run user_story h :
  _spawn_security E self user_story h =
    executor_run m_spawn_security [VJson user_story]
      (security_request E self user_story) E h.
Proof.
  unfold _spawn_security, executor_run. rewrite method_run.
  unfold bind, generate. by destruct (messages_create E _ _).
Qed.

Lemma spawn_architect_run user_story research security h :
  _spawn_architect E self user_story research security h =
    match prompts self !! role_architect with
    | Some system =>
        executor_run m_spawn_architect [VJson user_story; VOpt research; VOpt security]
          (architect_request system (architect_context E user_story research security)) E h
    | None =>
        (inl (KeyError role_architect),
         [EvCall m_spawn_architect [VJson user_story; VOpt research; VOpt security]])
    end.
Proof.
  unfold _spawn_architect, executor_run. rewrite method_run.
  unfold bind, prompt_of, generate.
  destruct (prompts self !! role_architect) as [system |]; [| done].
  simpl. rewrite app_nil_r. by destruct (messages_create E _ _).
Qed.

Lemma spawn_documenter_run user_story h :
  _spawn_documenter E self user_story h =
    match prompts self !! role_documenter with
    | Some system =>
        executor_run m_spawn_documenter [VJson user_story]
          (documenter_request E system user_story) E h
    | None => (inl (KeyError role_documenter), [EvCall m_spawn_documenter [VJson user_story]])
    end.
Proof.
  unfold _spawn_documenter, executor_run. rewrite method_run.
  unfold bind, prompt_of, generate.
  destruct (prompts self !! role_documenter) as [system |]; [| done].
  simpl. rewrite app_nil_r. by destruct (messages_create E _ _).
Qed.

Lemma executor_run_like m args req role h r evs :
  executor_role m = Some role ->
  executor_run m args req E h = (r, evs) ->
  executor_marks evs =
    EvCall m args :: match r with
                     | inr out => [EvReturn m (VStr out)]
                     | inl _ => []
                     end.
Proof.
  intros Hm. unfold executor_run.
  destruct (messages_create E _ _); intros [= <- <-]; simpl; by rewrite Hm.
Qed.

Lemma spawn_researcher_like user_story :
  executor_like m_spawn_researcher [VJson user_story] (_spawn_researcher E self user_story).
Proof.
  intros h r evs. rewrite spawn_researcher_run.
  destruct (prompts self !! role_researcher).
  - by apply executor_run_like with (role := role_researcher).
  - by intros [= <- <-].
Qed.

Lemma spawn_security_like user_story :
  executor_like m_spawn_security [VJson user_story] (_spawn_security E self user_story).
Proof.
  intros h r evs. rewrite spawn_security_run.
  by apply executor_run_like with (role := role_security).
Qed.

Lemma spawn_architect_like user_story research security :
  executor_like m_spawn_architect [VJson user_story; VOpt research; VOpt security]
    (_spawn_architect E self user_story research security).
Proof.
  intros h r evs. rewrite spawn_architect_run.
  destruct (prompts self !! role_architect).
  - by apply executor_run_like with (role := role_architect).
  - by intros [= <- <-].
Qed.

Lemma spawn_documenter_like user_story :
  executor_like m_spawn_documenter [VJson user_story] (_spawn_documenter E self user_story).
Proof.
  intros h r evs. rewrite spawn_documenter_run.
  destruct (prompts self !! role_documenter).
  - by apply executor_run_like with (role := role_documenter).
  - by intros [= <- <-].
Qed.

(** One step of the sequencer: skipped, completed or failed. *)
Lemma run_if_member_run role agents start done m args run results h r evs :
  executor_like m args run ->
  run_if_member role agents start done run results h = (r, evs) ->
  ((role ∉ agents) /\ r = inr results /\ evs = []) \/
  ((role ∈ agents) /\ exists out,
      r = inr (<[role := out]> results) /\
      executor_marks evs = [EvCall m args; EvReturn m (VStr out)]) \/
  ((role ∈ agents) /\ exists e, r = inl e /\ executor_marks evs = [EvCall m args]).
Proof.
  intros Hlike. unfold run_if_member. case_bool_decide as Hin.
  - intros H. right. run_inv;
      match goal with Hrun : run _ = _ |- _ => apply Hlike in Hrun end.
    + right. split; [done |]. eexists. split; [done |]. done.
    + left. split; [done |]. eexists. split; [done |].
      simpl. rewrite !executor_marks_app. by rewrite_hyp.
  - intros H. run_inv. by left.
Qed.

End Executors.

Lemma role_names_differ :
  role_researcher <> role_security /\ role_researcher <> role_architect /\
  role_researcher <> role_documenter /\ role_security <> role_architect /\
  role_security <> role_documenter /\ role_architect <> role_documenter.
Proof. repeat split; intros Heq; vm_compute in Heq; discriminate Heq. Qed.

(** The schedule, role by role. *)
Lemma scheduled_parts agents :
  scheduled agents =
    (if bool_decide (role_researcher ∈ agents) then [m_spawn_researcher] else []) ++
    (if bool_decide (role_security ∈ agents) then [m_spawn_security] else []) ++
    (if bool_decide (role_architect ∈ agents) then [m_spawn_architect] else []) ++
    (if bool_decide (role_documenter ∈ agents) then [m_spawn_documenter] else []).
Proof.
  unfold scheduled, executors. cbn [List.filter executor_role].
  by repeat case_bool_decide.
Qed.

Section SequencerFacts.

Variable E : Env.
Variable self : Orchestrator.

(** The steps of a run of the sequencer, each skipped, completed or
    failed, read back from its outcome. *)
Ltac sequencer_steps :=
  run_inv;
  repeat match goal with
  | H : run_if_member _ _ _ _ _ _ _ = _ |- _ =>
      eapply run_if_member_run in H;
      [| first [ apply spawn_researcher_like | apply spawn_security_like
               | apply spawn_architect_like | apply spawn_documenter_like ] ];
      destruct H as [(? & ? & ?) | [(? & ? & ? & ?) | (? & ? & ? & ?)]];
      simplify_eq
  end.

(** The entries and returns of a run of the sequencer are those of its
    body. *)
Lemma method_marks {A : Type} m args (inj : A -> Value) (body : M A) h r evs :
  executor_role m = None ->
  method m args inj body h = (r, evs) ->
  exists evs0, body (h ++ [EvCall m args]) = (r, evs0) /\
               executor_marks evs = executor_marks evs0.
Proof.
  intros Hm. rewrite method_run.
  destruct (body _) as [[e | x] evs0]; intros [= <- <-]; exists evs0;
    (split; [done |]); simpl; rewrite Hm; [done |].
  rewrite executor_marks_app. simpl. rewrite Hm. apply app_nil_r.
Qed.

Ltac use_membership :=
  repeat match goal with
  | H : _ ∈ _ |- context [bool_decide (_ ∈ _)] =>
      rewrite (bool_decide_eq_true_2 _ H)
  | H : _ ∉ _ |- context [bool_decide (_ ∈ _)] =>
      rewrite (bool_decide_eq_false_2 _ H)
  end.

(** Every way of cutting an explicit list at one of its elements. *)
Ltac cut_list :=
  repeat match goal with
  | H : _ = ?before ++ _ :: _ |- _ =>
      is_var before; destruct before as [| ? before]; simpl in H; simplify_eq
  end.

Ltac not_in_list :=
  let Hin := fresh "Hin" in
  intros Hin;
  repeat (apply elem_of_cons in Hin as [Hin | Hin]; [discriminate Hin |]);
  by apply elem_of_nil in Hin.

Ltac architect_inputs :=
  eexists _, _; (split; [reflexivity |]);
  rewrite ?lookup_insert_eq, ?lookup_insert_ne, ?lookup_empty by done;
  repeat split;
  first [ done
        | intros _; eexists; split; [reflexivity | by repeat constructor]
        | intros a; not_in_list ].

(** C5: in every run of the sequencer, finished or not, the executors
    entered are the scheduled ones (researcher, security, architect,
    documenter, each only if its role is among the agents) in that order,
    up to the point the run got to, and all of them when the sequencer
    returns; an executor that has been entered has returned before the
    next one is entered; and when the architect is entered, the researcher
    and the security executor have returned if their roles are among the
    agents, the architect is passed their outputs, [None] standing for a
    role that is not among the agents, and the documenter has not been
    entered. *)
Theorem sequencer_runs_roles_in_order user_story agents h r evs :
  _spawn_specialists_sequential E self user_story agents h = (r, evs) ->
let marks := executor_marks evs in
calls marks `prefix_of` scheduled agents /\
(forall context, r = inr context -> calls marks = scheduled agents) /\
(forall before m args after,
    marks = before ++ EvCall m args :: after ->
    after = [] \/ exists out after', after = EvReturn m (VStr out) :: after') /\
(forall before args after,
    marks = before ++ EvCall m_spawn_architect args :: after ->
    exists research security,
      args = [VJson user_story; VOpt research; VOpt security] /\
      ((role_researcher ∈ agents) ->
         exists out, research = Some out /\
                     EvReturn m_spawn_researcher (VStr out) ∈ before) /\
      ((role_researcher ∉ agents) -> research = None) /\
      ((role_security ∈ agents) ->
         exists out, security = Some out /\
                     EvReturn m_spawn_security (VStr out) ∈ before) /\
      ((role_security ∉ agents) -> security = None) /\
      (forall a, EvCall m_spawn_documenter a ∉ before)).
Proof.
  intros Hrun marks. subst marks.
  apply method_marks in Hrun as (evs0 & Hrun & ->); [| done].
  cbv zeta in Hrun. rewrite scheduled_parts.
  destruct role_names_differ as (D1 & D2 & D3 & D4 & D5 & D6).
  sequencer_steps; rewrite ?executor_marks_app; repeat rewrite_hyp.
  all: use_membership; cbn [executor_marks calls app].
  all: (split; [first [by eexists | apply prefix_nil] |]).
  all: (split; [intros ? [=]; done |]).
  all: (split;
    [intros before m args after Hcut; cut_list;
     first [by left | right; by eexists _, _] |]).
  all: (intros before args after Hcut; cut_list).
  all: architect_inputs.
Qed.

(** The context a run of the sequencer returns, role by role. *)
Lemma sequencer_context user_story agents h context evs :
  _spawn_specialists_sequential E self user_story agents h = (inr context, evs) ->
  (forall role, role ∈ roles -> role ∈ agents ->
     exists out m, context !! role = Some out /\
                   executor_role m = Some role /\
                   EvReturn m (VStr out) ∈ executor_marks evs) /\
  (forall role, role ∈ roles -> role ∉ agents -> context !! role = None) /\
  (forall role, role ∉ roles -> context !! role = None).
Proof.
  intros Hrun.
  apply method_marks in Hrun as (evs0 & Hrun & ->); [| done].
  cbv zeta in Hrun.
  destruct role_names_differ as (D1 & D2 & D3 & D4 & D5 & D6).
  sequencer_steps; rewrite ?executor_marks_app; repeat rewrite_hyp.
  all: cbn [executor_marks app].
  all: split; [| split].
  all: try (intros role Hrole; unfold roles in Hrole;
            rewrite !not_elem_of_cons in Hrole;
            destruct Hrole as (? & ? & ? & ? & _);
            by rewrite ?lookup_insert_ne, ?lookup_empty by done).
  all: intros role Hrole; unfold roles in Hrole;
       rewrite !elem_of_cons, elem_of_nil in Hrole;
       destruct Hrole as [-> | [-> | [-> | [-> | []]]]]; intros Hin; try done.
  all: try by rewrite ?lookup_insert_ne, ?lookup_empty by done.
  all: rewrite ?lookup_insert_eq, ?lookup_insert_ne, ?lookup_insert_eq by done.
  all: eexists _.
  all: first
    [ exists m_spawn_researcher; by repeat first [split | reflexivity | constructor]
    | exists m_spawn_security; by repeat first [split | reflexivity | constructor]
    | exists m_spawn_architect; by repeat first [split | reflexivity | constructor]
    | exists m_spawn_documenter; by repeat first [split | reflexivity | constructor] ].
Qed.

(** When the generator answers every request, an executor whose prompt is
    there returns. *)
Lemma executor_run_returns m args req h :
  (forall h' req', exists response, messages_create E h' req' = inr response) ->
  exists out evs, executor_run m args req E h = (inr out, evs).
Proof.
  intros Hgen. unfold executor_run.
  destruct (Hgen (h ++ [EvCall m args]) req) as [response ->]. by eexists _, _.
Qed.

Lemma run_if_member_returns role agents start done run results h :
  (role ∈ agents -> forall h', exists out evs, run h' = (inr out, evs)) ->
  exists results' evs,
    run_if_member role agents start done run results h = (inr results', evs).
Proof.
  intros Hrun. unfold run_if_member. case_bool_decide as Hin; [| by eexists _, _].
  unfold bind, print_, emit, ret.
  destruct (Hrun Hin (h ++ [EvPrint start])) as (out & evs & ->). by eexists _, _.
Qed.

Lemma bind_returns {A B : Type} (m : M A) (k : A -> M B) h x evs :
  m h = (inr x, evs) ->
  (exists y evs', k x (h ++ evs) = (inr y, evs')) ->
  exists y evs', bind m k h = (inr y, evs').
Proof.
  intros Hm (y & evs' & Hk). unfold bind. rewrite Hm, Hk. by eexists _, _.
Qed.

(** C6: for agents that are all role identifiers, the context the
    sequencer returns has exactly the agents as its keys: every agent has
    one entry, which is the output its executor returned in this run, and
    a role that is not among the agents has none.  The sequencer does
    return when the generator answers every request and the prompts of
    the agents that need one are loaded. *)
Theorem sequencer_context_keys user_story agents h :
  (forall role, role ∈ agents -> role ∈ roles) ->
  (forall context evs,
      _spawn_specialists_sequential E self user_story agents h = (inr context, evs) ->
      dom context = list_to_set agents /\
      (forall role, role ∈ agents ->
         exists out m, context !! role = Some out /\
                       executor_role m = Some role /\
                       EvReturn m (VStr out) ∈ executor_marks evs) /\
      (forall role, role ∉ agents -> context !! role = None)) /\
  ((forall h' req, exists response, messages_create E h' req = inr response) ->
   (forall role, role ∈ agents -> role <> role_security ->
                 is_Some (prompts self !! role)) ->
   exists context evs,
     _spawn_specialists_sequential E self user_story agents h = (inr context, evs)).
Proof.
  intros Hroles. split.
  - intros context evs Hrun.
    destruct (sequencer_context _ _ _ _ _ Hrun) as (Hin & Hout & Hother).
    assert (forall role, role ∉ agents -> context !! role = None) as Habsent.
    { intros role Hrole. destruct (decide (role ∈ roles)); auto. }
    split; [| split; [| done]].
    + apply set_eq. intros role. rewrite elem_of_dom, elem_of_list_to_set. split.
      * intros [out Hout']. destruct (decide (role ∈ agents)) as [| Hn]; [done |].
        rewrite (Habsent role Hn) in Hout'. done.
      * intros Hrole. destruct (Hin role (Hroles role Hrole) Hrole) as (out & _ & -> & _).
        by eexists.
    + intros role Hrole. by apply Hin; [apply Hroles |].
  - intros Hgen Hprompts.
    destruct role_names_differ as (D1 & D2 & D3 & D4 & D5 & D6).
    unfold _spawn_specialists_sequential. rewrite method_run.
    match goal with
    | |- exists _ _, match ?body with _ => _ end = _ =>
        assert (exists context evs, body = (inr context, evs)) as (context & evs & ->);
          [| by eexists _, _]
    end.
    repeat match goal with
           | |- exists _ _, bind (run_if_member ?role _ ?s ?d ?run ?results) _ ?h0 = _ =>
               let Hstep := fresh "Hstep" in
               destruct (run_if_member_returns role agents s d run results h0)
                 as (? & ? & Hstep);
               [| eapply bind_returns; [exact Hstep |]]
           end.
    5: by eexists _, _.
    + intros Hin h'. rewrite spawn_researcher_run.
      destruct (Hprompts _ Hin D1) as [system ->]. by apply executor_run_returns.
    + intros Hin h'. rewrite spawn_security_run. by apply executor_run_returns.
    + intros Hin h'. rewrite spawn_architect_run.
      destruct (Hprompts _ Hin) as [system ->]; [done |]. by apply executor_run_returns.
    + intros Hin h'. rewrite spawn_documenter_run.
      destruct (Hprompts _ Hin) as [system ->]; [done |]. by apply executor_run_returns.
Qed.

End SequencerFacts.

(** ** The run coordinator *)

Section Coordinator.

Variable E : Env.
Variable self : Orchestrator.

Lemma create_user_story_run user_input h r evs :
  _create_user_story E user_input h = (r, evs) ->
  evs = EvCall m_create_user_story [VStr user_input]
          :: EvGenerate (user_story_request user_input)
          :: match r with
             | inr v => [EvReturn m_create_user_story (VJson v)]
             | inl _ => []
             end.
Proof.
  unfold _create_user_story. rewrite method_run.
  unfold bind, generate, lift.
  destruct (messages_create E _ _) as [e | response]; [by intros [= <- <-] |].
  destruct (first_block_text response) as [e | content]; [by intros [= <- <-] |].
  destruct (re_search_braces content) as [json_match |]; [| by intros [= <- <-]].
  destruct (json_loads E json_match); by intros [= <- <-].
Qed.

Lemma invoke_decide_agents_run user_story h :
  invoke_decide_agents E user_story h =
    (inr (_decide_agents E user_story),
     [ EvCall m_decide_agents [VJson user_story];
       EvReturn m_decide_agents (VList (_decide_agents E user_story)) ]).
Proof. unfold invoke_decide_agents. by rewrite method_run. Qed.

Lemma invoke_slugify_any title h r evs :
  invoke_slugify E title h = (r, evs) ->
  (exists s, title = JStr s /\ r = inr (_slugify (unicode_lower E) s) /\
             evs = [ EvCall m_slugify [VJson title];
                     EvReturn m_slugify (VStr (_slugify (unicode_lower E) s)) ]) \/
  (r = inl AttributeError /\ evs = [EvCall m_slugify [VJson title]]).
Proof.
  unfold invoke_slugify. rewrite method_run.
  destruct title; intros [= <- <-]; eauto.
Qed.

Lemma create_branch_run repo branch_name h :
  let entry := EvCall m_create_branch [VStr repo; VStr branch_name] in
  let lookup := EvGet (head_url self repo) (api_headers self) in
  match resolved_sha (requests_get E (h ++ [entry]) (head_url self repo) (api_headers self)) with
  | None => exists e, _create_branch E self repo branch_name h = (inl e, [entry; lookup])
  | Some sha =>
      let creation := EvPost (refs_url self repo) (api_headers self) (ref_payload branch_name sha) in
      _create_branch E self repo branch_name h =
        match requests_post E (h ++ [entry; lookup]) (refs_url self repo) (api_headers self)
                (ref_payload branch_name sha) with
        | inr _ => (inr tt, [entry; lookup; creation; EvReturn m_create_branch VNone])
        | inl e => (inl e, [entry; lookup; creation])
        end
  end.
Proof.
  intros entry lookup. unfold _create_branch. rewrite method_run.
  unfold bind, http_get, http_post, response_json, lift, resolved_sha.
  destruct (requests_get E _ _ _) as [e | response]; [by eexists |].
  destruct (json_body response) as [body |]; [| by eexists].
  simpl. destruct (subscript body (lit "object")) as [e | object]; [by eexists |].
  destruct (subscript object (lit "sha")) as [e | sha]; [by eexists |].
  simpl. rewrite !app_nil_r, <- app_assoc. simpl.
  by destruct (requests_post E _ _ _ _).
Qed.

Lemma create_branch_events repo branch_name h r evs :
  _create_branch E self repo branch_name h = (r, evs) ->
  calls evs = [m_create_branch] /\ executor_marks evs = [] /\ writes evs = [] /\
  exists rest,
    evs = EvCall m_create_branch [VStr repo; VStr branch_name]
            :: EvGet (head_url self repo) (api_headers self) :: rest.
Proof.
  pose proof (create_branch_run repo branch_name h) as Hrun. cbv zeta in Hrun.
  destruct (resolved_sha _) as [sha |].
  - rewrite Hrun. destruct (requests_post E _ _ _ _); intros [= <- <-];
      repeat split; by eexists.
  - destruct Hrun as [e ->]. intros [= <- <-]. repeat split; by eexists.
Qed.

Lemma emits_generate (P : Event -> Prop) req :
  P (EvGenerate req) -> emits P (generate E req).
Proof. intros HP h r evs [= <- <-]. by repeat constructor. Qed.

Lemma emits_prompt_of P name : emits P (prompt_of self name).
Proof.
  unfold prompt_of. destruct (prompts self !! name); [apply emits_ret | apply emits_raise].
Qed.

Ltac emits_steps :=
  repeat first
    [ apply emits_ret | apply emits_raise | apply emits_lift
    | apply emits_prompt_of
    | apply emits_generate; exact I
    | apply emits_emit; exact I
    | apply emits_method; [reflexivity | intros ?; exact I |]
    | apply emits_bind; [| intros ?] ].

Lemma sequencer_emits user_story agents :
  emits sequencing_event (_spawn_specialists_sequential E self user_story agents).
Proof.
  unfold _spawn_specialists_sequential, run_if_member,
    _spawn_researcher, _spawn_security, _spawn_architect, _spawn_documenter, print_.
  cbv zeta.
  emits_steps; case_bool_decide; emits_steps.
Qed.

Lemma sequencing_calls evs :
  Forall sequencing_event evs ->
  Forall (fun m => stage_of m = Sequencer) (calls evs) /\
  writes evs = [] /\ hosting_calls evs = [].
Proof.
  induction 1 as [| e evs He _ (IH1 & IH2 & IH3)]; [done |].
  destruct e; simpl in *; try done. split; [by constructor | done].
Qed.

Lemma sequencer_calls user_story agents h r evs :
  _spawn_specialists_sequential E self user_story agents h = (r, evs) ->
  writes evs = [] /\ hosting_calls evs = [] /\
  exists rest,
    calls evs = m_spawn_specialists_sequential :: rest /\
    Forall (fun m => stage_of m = Sequencer) rest.
Proof.
  intros Hrun.
  destruct (sequencing_calls evs (sequencer_emits _ _ _ _ _ Hrun)) as (Hc & Hw & Hh).
  split; [done |]. split; [done |].
  unfold _spawn_specialists_sequential in Hrun. rewrite method_run in Hrun.
  destruct (bind _ _ _) as [[e | x] evs0]; injection Hrun as <- <-;
    simpl in Hc; inversion Hc; subst; by eexists.
Qed.

Lemma squash_block (a b : Stage) (l : list Method) (t : list Stage) :
  a <> b -> Forall (fun m => stage_of m = a) l ->
  squash (a :: List.map stage_of l ++ b :: t) = a :: squash (b :: t).
Proof.
  intros Hab. induction 1 as [| m l Hm _ IH].
  - cbn [List.map app squash]. by rewrite bool_decide_eq_false_2.
  - cbn [List.map app]. rewrite Hm.
    change (squash (a :: a :: List.map stage_of l ++ b :: t))
      with (if bool_decide (a = a)
            then squash (a :: List.map stage_of l ++ b :: t)
            else a :: squash (a :: List.map stage_of l ++ b :: t)).
    by rewrite bool_decide_eq_true_2.
Qed.

Lemma execute_gsd_events user_story context repo branch h r evs :
  _execute_gsd E user_story context repo branch h = (r, evs) ->
  calls evs = [m_execute_gsd] /\
  writes evs = [EvWriteText (gsd_context_path E)
                  (json_dumps_indent2 E (gsd_payload user_story context))].
Proof.
  rewrite execute_gsd_run. cbv zeta.
  by destruct (write_text E _ _ _); intros [= <- <-].
Qed.

(** The steps of a run of [handle_request], read back from its outcome,
    each with what it is known to leave in the list of events. *)
Ltac coordinator_steps :=
  run_inv;
  repeat match goal with
  | H : _create_user_story _ _ _ = _ |- _ => apply create_user_story_run in H
  | H : invoke_decide_agents _ _ _ = _ |- _ => rewrite invoke_decide_agents_run in H
  | H : invoke_slugify _ _ _ = _ |- _ =>
      apply invoke_slugify_any in H as [(? & ? & ? & ?) | [? ?]]
  | H : _wait_for_pr _ _ _  = _ |- _ => rewrite wait_for_pr_run in H
  end;
  simplify_eq.

(** The methods a run that returns has entered. *)
Lemma handle_request_calls user_input repo h url evs :
  handle_request E self user_input repo h = (inr url, evs) ->
  url = pr_placeholder repo /\
  exists inside,
    Forall (fun m => stage_of m = Sequencer) inside /\
    calls evs =
      [m_create_user_story; m_decide_agents; m_slugify; m_create_branch;
       m_spawn_specialists_sequential] ++ inside ++ [m_execute_gsd; m_wait_for_pr].
Proof.
  unfold handle_request. intros Hrun. coordinator_steps.
  split; [done |].
  repeat match goal with
  | H : _create_branch _ _ _ _ _ = _ |- _ =>
      apply create_branch_events in H as (? & _ & _ & _)
  | H : _spawn_specialists_sequential _ _ _ _ _ = _ |- _ =>
      apply sequencer_calls in H as (_ & _ & inside & ? & ?)
  | H : _execute_gsd _ _ _ _ _ _ = _ |- _ => apply execute_gsd_events in H as (? & _)
  end.
  exists inside. split; [done |].
  rewrite !calls_app. cbn [calls app].
  repeat match goal with H : calls _ = _ |- _ => rewrite H; clear H end.
  reflexivity.
Qed.

(** C3, as the code has it: every run that returns has gone through the
    stages in the order Extractor, Router, Branch Provisioner, Sequencer
    (with the role executors inside it), Handoff Publisher, Completion
    Watcher: the branch is provisioned before the sequencer runs. *)
Theorem successful_run_stage_order user_input repo h url evs :
  handle_request E self user_input repo h = (inr url, evs) ->
  stages evs =
    [Extractor; Router; BranchProvisioner; Sequencer; HandoffPublisher;
     CompletionWatcher].
Proof.
  intros Hrun.
  destruct (handle_request_calls _ _ _ _ _ Hrun) as (_ & inside & Hinside & Hcalls).
  unfold stages. rewrite Hcalls.
  change (squash (Extractor :: Router :: BranchProvisioner :: BranchProvisioner ::
                    Sequencer :: List.map stage_of (inside ++ [m_execute_gsd; m_wait_for_pr]))
          = [Extractor; Router; BranchProvisioner; Sequencer; HandoffPublisher;
             CompletionWatcher]).
  rewrite List.map_app.
  change (Extractor :: Router :: BranchProvisioner ::
            squash (Sequencer :: List.map stage_of inside ++
                      HandoffPublisher :: [CompletionWatcher]) =
          [Extractor; Router; BranchProvisioner; Sequencer; HandoffPublisher;
           CompletionWatcher]).
  by rewrite squash_block.
Qed.

(** C9: the completion watcher returns the placeholder
    ["https://github.com/{repo}/pull/XXX"] for every repository and
    branch, in every history, without a call to any collaborator and
    without raising; the placeholder ends in ["/pull/XXX"], which names no
    pull request; and it is what [handle_request] returns whenever it
    returns. *)
Theorem wait_for_pr_returns_placeholder repo branch h :
  _wait_for_pr repo branch h =
    (inr (pr_placeholder repo),
     [ EvCall m_wait_for_pr [VStr repo; VStr branch];
       EvReturn m_wait_for_pr (VStr (pr_placeholder repo)) ]) /\
  List.filter is_external (_wait_for_pr repo branch h).2 = [] /\
  (exists front, pr_placeholder repo = front ++ lit "/pull/XXX") /\
  (forall user_input url evs,
      handle_request E self user_input repo h = (inr url, evs) ->
      url = pr_placeholder repo).
Proof.
  split; [apply wait_for_pr_run |].
  split; [by rewrite wait_for_pr_run |].
  split.
  - exists (lit "https://github.com/" ++ repo). unfold pr_placeholder.
    by rewrite <- app_assoc.
  - intros user_input url evs Hrun.
    by destruct (handle_request_calls _ _ _ _ _ Hrun) as [-> _].
Qed.

Lemma writes_app evs evs' : writes (evs ++ evs') = writes evs ++ writes evs'.
Proof. apply List.filter_app. Qed.







End Coordinator.

(** ** The theorems at work in the example environment *)

Lemma canned_generator_answers story_output h req :
  exists response, canned_generator story_output h req = inr response.
Proof. by eexists. Qed.

(** The two routing scenarios: a story that mentions OAuth2 gets all four
    roles ([auth] is in both keyword lists), a story about a typo gets the two
    unconditional ones. *)
Example decide_agents_oauth :
  _decide_agents (example_env oauth_story head_found 201)
    (story_value (lit "Add OAuth2 login") (lit "As a user, I want to log in with OAuth2")) =
  [role_researcher; role_architect; role_documenter; role_security].
Proof. reflexivity. Qed.

Example decide_agents_typo :
  _decide_agents (example_env typo_story head_found 201)
    (story_value (lit "Fix typo in README") (lit "As a reader, I want correct spelling")) =
  [role_architect; role_documenter].
Proof. reflexivity. Qed.

(** A keyword written with a letter outside ASCII never occurs in the
    serialised story, which [json.dumps] escapes: a story whose title is the
    first keyword of the list is not routed to the researcher. *)
Example decide_agents_escaped_keyword :
  _decide_agents (example_env oauth_story head_found 201)
    (story_value (lit "a" ++ n_tilde ++ lit "ade") (lit "As a user, I want more")) =
  [role_architect; role_documenter].
Proof. reflexivity. Qed.

(** C3 as stated fails: in a run that returns, the branch is provisioned
    before the sequencer runs, not after it. *)
Lemma run_provisions_branch_before_sequencing :
  (example_run oauth_story head_found 201).1 = inr (pr_placeholder example_repo) /\
  stages (example_run oauth_story head_found 201).2 = coordinator_order /\
  stages (example_run oauth_story head_found 201).2 <> overview_order.
Proof. split; [| split]; [reflexivity | reflexivity | by vm_compute]. Qed.

Lemma successful_run_stage_order_witness :
  stages (example_run oauth_story head_found 201).2 = coordinator_order.
Proof.
  apply (successful_run_stage_order (example_env oauth_story head_found 201)
           example_self example_input example_repo [] (pr_placeholder example_repo)).
  reflexivity.
Defined.



Lemma sequencer_runs_roles_in_order_witness :
  calls (executor_marks
           (example_sequencer_run [role_architect; role_documenter; role_security]).2) =
    [m_spawn_security; m_spawn_architect; m_spawn_documenter].
Proof.
  destruct (sequencer_runs_roles_in_order (example_env oauth_story head_found 201)
              example_self _ _ [] _ _
              (surjective_pairing
                 (example_sequencer_run [role_architect; role_documenter; role_security])))
    as (_ & Hall & _).
  erewrite Hall; reflexivity.
Defined.

Lemma sequencer_context_keys_witness :
  exists context evs,
    example_sequencer_run [role_architect; role_documenter; role_security] =
      (inr context, evs) /\
    dom context = list_to_set [role_architect; role_documenter; role_security].
Proof.
  destruct (sequencer_context_keys (example_env oauth_story head_found 201) example_self
              (story_value (lit "Add OAuth2 login")
                 (lit "As a user, I want to log in with OAuth2"))
              [role_architect; role_documenter; role_security] [])
    as [Hkeys Hreturns].
  { intros role. unfold roles. rewrite !elem_of_cons, !elem_of_nil. tauto. }
  destruct Hreturns as (context & evs & Hrun).
  - intros h' req. apply canned_generator_answers.
  - intros role Hrole Hsec. rewrite !elem_of_cons, elem_of_nil in Hrole.
    destruct Hrole as [-> | [-> | [-> | []]]]; [by eexists | by eexists | done].
  - exists context, evs. split; [exact Hrun |].
    exact (proj1 (Hkeys context evs Hrun)).
Defined.


Lemma wait_for_pr_returns_placeholder_witness :
  exists url,
    (example_run oauth_story head_found 201).1 = inr url /\
    url = pr_placeholder example_repo.
Proof.
  destruct (wait_for_pr_returns_placeholder (example_env oauth_story head_found 201)
              example_self example_repo [] []) as (_ & _ & _ & Hurl).
  exists (pr_placeholder example_repo). split; [reflexivity |].
  apply (Hurl example_input (pr_placeholder example_repo)
           (example_run oauth_story head_found 201).2).
  reflexivity.
Defined.

(** * Further properties of the code *)

(** ** More on slugs *)

Lemma alnum_runs_nil cur s :
  alnum_runs cur s = [] -> cur = [] /\ Forall (fun c => is_slug_char c = false) s.
Proof.
  revert cur. induction s as [| c s IH]; intros cur; simpl.
  - destruct cur; [done | discriminate].
  - destruct (is_slug_char c) eqn:Hc.
    + intros H. apply IH in H as [[=] _].
    + destruct cur; [| discriminate]. intros H. apply IH in H as [_ H].
      split; [done | by constructor].
Qed.

Lemma join_words_nil ws : Forall is_word ws -> str_join [dash] ws = [] -> ws = [].
Proof.
  intros Hws Hj. destruct ws as [| w ws]; [done |].
  inversion Hws as [| ? ? Hw _]; subst.
  destruct (word_head _ Hw) as (c & r & -> & _).
  destruct ws; discriminate.
Qed.

(** The slug is empty exactly for the titles that have no lower-case ASCII
    letter and no digit once lower-cased: only those lose everything. *)
Theorem slugify_empty_iff (ul : str -> str -> N -> str) (title : str) :
  _slugify ul title = [] <->
  Forall (fun c => is_slug_char c = false) (py_lower ul title).
Proof.
  split.
  - rewrite slugify_words. intros Hj.
    apply join_words_nil in Hj; [| apply alnum_runs_words; constructor].
    by apply alnum_runs_nil in Hj as [_ ?].
  - intros Hno. unfold _slugify, re_sub_non_alnum.
    by apply strip_all, sub_runs_no_slug_char.
Qed.

Lemma filter_sub_runs b s :
  List.filter is_slug_char (sub_runs b s) = List.filter is_slug_char s.
Proof.
  revert b. induction s as [| c s IH]; intros b; simpl; [done |].
  destruct (is_slug_char c) eqn:Hc; simpl.
  - by rewrite Hc, IH.
  - destruct b; simpl; by rewrite ?dash_not_slug_char, IH.
Qed.

Lemma filter_lstrip_dash s :
  List.filter is_slug_char (lstrip dash s) = List.filter is_slug_char s.
Proof.
  induction s as [| c s IH]; simpl; [done |].
  destruct (c =? dash) eqn:Hc; [| done].
  apply N.eqb_eq in Hc as ->. by rewrite dash_not_slug_char.
Qed.

Lemma filter_strip_dash s :
  List.filter is_slug_char (strip dash s) = List.filter is_slug_char s.
Proof.
  unfold strip, rstrip.
  by rewrite List.filter_rev, filter_lstrip_dash, <- List.filter_rev,
    rev_involutive, filter_lstrip_dash.
Qed.

Lemma length_sub_runs b s : (length (sub_runs b s) <= length s)%nat.
Proof.
  revert b. induction s as [| c s IH]; intros b; simpl; [done |].
  destruct (is_slug_char c); simpl; [specialize (IH false); lia |].
  destruct b; simpl; [specialize (IH true); lia | specialize (IH true); lia].
Qed.

Lemma length_lstrip ch s : (length (lstrip ch s) <= length s)%nat.
Proof.
  induction s as [| c s IH]; simpl; [done |]. destruct (c =? ch); simpl; lia.
Qed.

(** The letters and digits of the lower-cased title are all in the slug, in
    their order, and the slug has no others; the slug is never longer than
    the lower-cased title. *)
Theorem slugify_keeps_letters_and_digits (ul : str -> str -> N -> str) (title : str) :
  List.filter is_slug_char (_slugify ul title) =
    List.filter is_slug_char (py_lower ul title) /\
  (length (_slugify ul title) <= length (py_lower ul title))%nat.
Proof.
  unfold _slugify, re_sub_non_alnum. split.
  - by rewrite filter_strip_dash, filter_sub_runs.
  - unfold strip, rstrip. rewrite length_rev.
    etransitivity; [apply length_lstrip |]. rewrite length_rev.
    etransitivity; [apply length_lstrip |]. apply length_sub_runs.
Qed.

Lemma lower_from_ascii ul before s :
  Forall (fun c => c < 128) s -> lower_from ul before s = List.map ascii_lower s.
Proof.
  intros Hs. revert before. induction Hs as [| c s Hc _ IH]; intros before; [done |].
  simpl. apply N.ltb_lt in Hc. by rewrite Hc, IH.
Qed.

Lemma ascii_lower_ascii c : c < 128 -> ascii_lower c < 128.
Proof.
  unfold ascii_lower, is_ascii_upper. intros Hc.
  destruct (_ && _) eqn:Hu; [| done].
  apply andb_true_iff in Hu as [_ Hu]. apply N.leb_le in Hu. lia.
Qed.

Lemma ascii_lower_idem c : ascii_lower (ascii_lower c) = ascii_lower c.
Proof.
  unfold ascii_lower, is_ascii_upper.
  destruct ((65 <=? c) && (c <=? 90)) eqn:Hu; [| by rewrite Hu].
  apply andb_true_iff in Hu as [Hl Hu]. apply N.leb_le in Hl, Hu.
  assert ((c + 32 <=? 90) = false) as -> by (apply N.leb_gt; lia).
  by rewrite andb_false_r.
Qed.

(** For a title of ASCII characters the slug depends neither on the Unicode
    table nor on the case of the letters: the title and its lower-cased form
    get the same slug, so titles that differ in case only collide on one
    branch name. *)
Theorem slugify_ascii_ignores_case (ul ul' : str -> str -> N -> str) (title : str) :
  Forall (fun c => c < 128) title ->
  _slugify ul title = _slugify ul' (List.map ascii_lower title) /\
  branch_name_of ul title = branch_name_of ul' (List.map ascii_lower title).
Proof.
  intros Hascii.
  assert (_slugify ul title = _slugify ul' (List.map ascii_lower title)) as Heq.
  { unfold _slugify, py_lower. rewrite !lower_from_ascii.
    - rewrite List.map_map. f_equal. f_equal. apply List.map_ext. intros c.
      by rewrite ascii_lower_idem.
    - apply Forall_forall. intros c Hc. apply list_elem_of_In, List.in_map_iff in Hc
        as (c' & <- & Hc'). apply ascii_lower_ascii.
      rewrite Forall_forall in Hascii. apply Hascii. by apply list_elem_of_In.
    - done. }
  split; [done |]. unfold branch_name_of. by rewrite Heq.
Qed.

Lemma slugify_ascii_ignores_case_witness :
  _slugify sample_unicode_lower (lit "Add OAuth2 login!") =
    _slugify (fun _ _ c => [c]) (lit "add oauth2 login!").
Proof.
  apply (slugify_ascii_ignores_case sample_unicode_lower (fun _ _ c => [c])
           (lit "Add OAuth2 login!")).
  apply Forall_forall. intros c Hc. apply N.ltb_lt.
  revert c Hc. apply Forall_forall. by repeat constructor.
Defined.

(** ** More on the role router *)

(** The roles in the router's answer, one by one. *)
Lemma decide_agents_elem (E : Env) (user_story : Json) (r : str) :
  let story_text := py_lower (unicode_lower E) (json_dumps E user_story) in
  r ∈ _decide_agents E user_story <->
  (any_in story_text new_feature_keywords = true /\ r = role_researcher) \/
  r = role_architect \/ r = role_documenter \/
  (any_in story_text sensitive_keywords = true /\ r = role_security).
Proof.
  intros story_text. unfold _decide_agents. fold story_text.
  destruct (any_in story_text new_feature_keywords),
           (any_in story_text sensitive_keywords); cbn [app];
    rewrite set_to_list_elem, ?elem_of_cons, ?elem_of_nil; intuition congruence.
Qed.

(** The list the router returns holds the roles it has appended, each once,
    in the order the set gives them. *)
Lemma decide_agents_perm (E : Env) (user_story : Json) :
  let story_text := py_lower (unicode_lower E) (json_dumps E user_story) in
  _decide_agents E user_story ≡ₚ
    (if any_in story_text new_feature_keywords then [role_researcher] else [])
      ++ [role_architect; role_documenter]
      ++ (if any_in story_text sensitive_keywords then [role_security] else []).
Proof.
  intros story_text.
  destruct role_names_differ as (D1 & D2 & D3 & D4 & D5 & D6).
  apply NoDup_Permutation; [apply set_to_list_NoDup | |].
  - destruct (any_in story_text new_feature_keywords),
             (any_in story_text sensitive_keywords); cbn [app];
      repeat (apply NoDup_cons; split;
              [rewrite ?elem_of_cons, elem_of_nil; intuition congruence |]);
      apply NoDup_nil_2.
  - intros r. rewrite decide_agents_elem. fold story_text.
    destruct (any_in story_text new_feature_keywords),
             (any_in story_text sensitive_keywords); cbn [app];
      rewrite ?elem_of_cons, ?elem_of_nil; intuition congruence.
Qed.

Lemma decide_agents_length (E : Env) (user_story : Json) :
  let story_text := py_lower (unicode_lower E) (json_dumps E user_story) in
  length (_decide_agents E user_story) =
    (2 + (if any_in story_text new_feature_keywords then 1 else 0)
       + (if any_in story_text sensitive_keywords then 1 else 0))%nat.
Proof.
  intros story_text. rewrite (decide_agents_perm E user_story). fold story_text.
  by destruct (any_in story_text new_feature_keywords),
              (any_in story_text sensitive_keywords).
Qed.

(** The router answers with two roles, plus one when a new-feature keyword
    occurs in the story text and one when a sensitive-data keyword occurs;
    [auth] is in both lists, so a story text that mentions it gets all four
    roles. *)
Theorem decide_agents_count (E : Env) (user_story : Json) :
  let story_text := py_lower (unicode_lower E) (json_dumps E user_story) in
  length (_decide_agents E user_story) =
    (2 + (if any_in story_text new_feature_keywords then 1 else 0)
       + (if any_in story_text sensitive_keywords then 1 else 0))%nat /\
  (occurs (lit "auth") story_text ->
   forall r, r ∈ roles -> r ∈ _decide_agents E user_story).
Proof.
  intros story_text. split.
  - apply decide_agents_length.
  - intros Hauth r Hr.
    assert (any_in story_text new_feature_keywords = true) as H1.
    { apply any_in_spec. exists (lit "auth"). split; [| done].
      unfold new_feature_keywords. rewrite !elem_of_cons. tauto. }
    assert (any_in story_text sensitive_keywords = true) as H2.
    { apply any_in_spec. exists (lit "auth"). split; [| done].
      unfold sensitive_keywords. rewrite !elem_of_cons. tauto. }
    apply decide_agents_elem. fold story_text. rewrite H1, H2.
    unfold roles in Hr. rewrite !elem_of_cons, elem_of_nil in Hr. intuition.
Qed.

Lemma lower_from_keeps_ascii ul before s :
  Forall (fun c => c < 128) s -> Forall (fun c => c < 128) (lower_from ul before s).
Proof.
  intros Hs. rewrite lower_from_ascii by done.
  apply Forall_forall. intros c Hc.
  apply list_elem_of_In, List.in_map_iff in Hc as (c' & <- & Hc').
  apply ascii_lower_ascii. rewrite Forall_forall in Hs. apply Hs.
  by apply list_elem_of_In.
Qed.

Lemma occurs_elem w text c : occurs w text -> c ∈ w -> c ∈ text.
Proof.
  intros (before & after & ->) Hc. rewrite !elem_of_app. auto.
Qed.

(** When the serialised story is ASCII, which is what [json.dumps] gives by
    default since it escapes every other character, the two keywords written
    with an n-tilde never occur in the story text: the researcher is chosen
    by the other seven keywords alone. *)
Theorem decide_agents_accented_keywords_dead (E : Env) (user_story : Json) :
  Forall (fun c => c < 128) (json_dumps E user_story) ->
  let story_text := py_lower (unicode_lower E) (json_dumps E user_story) in
  ~ occurs (lit "a" ++ n_tilde ++ lit "ade") story_text /\
  ~ occurs (lit "a" ++ n_tilde ++ lit "adir") story_text /\
  (role_researcher ∈ _decide_agents E user_story <->
   exists w, w ∈ [ lit "implementa"; lit "crea"; lit "nueva"; lit "agregar";
                   lit "auth"; lit "integra"; lit "conecta" ] /\
             occurs w story_text).
Proof.
  intros Hascii story_text.
  assert (forall w, (241 : N) ∈ w -> ~ occurs w story_text) as Hdead.
  { intros w Hw Hocc. pose proof (occurs_elem _ _ _ Hocc Hw) as Hin.
    pose proof (lower_from_keeps_ascii (unicode_lower E) [] _ Hascii) as Hlow.
    rewrite Forall_forall in Hlow. specialize (Hlow _ Hin). lia. }
  assert ((241 : N) ∈ lit "a" ++ n_tilde ++ lit "ade") as Ha
    by (apply (bool_decide_unpack _); vm_compute; exact I).
  assert ((241 : N) ∈ lit "a" ++ n_tilde ++ lit "adir") as Hb
    by (apply (bool_decide_unpack _); vm_compute; exact I).
  split; [by apply Hdead |]. split; [by apply Hdead |].
  rewrite decide_agents_elem. fold story_text.
  destruct role_names_differ as (D1 & D2 & D3 & _).
  rewrite any_in_spec. unfold new_feature_keywords. split.
  - intros [[(w & Hw & Hocc) _] | [? | [? | [_ ?]]]]; try congruence.
    exists w. split; [| done]. rewrite !elem_of_cons, elem_of_nil in Hw.
    rewrite !elem_of_cons, elem_of_nil.
    destruct Hw as [-> | [-> | [-> | [-> | [-> | [-> | [-> | [-> | [-> | []]]]]]]]]];
      first [ by destruct (Hdead _ Ha Hocc) | by destruct (Hdead _ Hb Hocc) | intuition ].
  - intros (w & Hw & Hocc). left. split; [| done]. exists w. split; [| done].
    rewrite !elem_of_cons, elem_of_nil in Hw. rewrite !elem_of_cons. tauto.
Qed.

Lemma decide_agents_accented_keywords_dead_witness :
  ~ occurs (lit "a" ++ n_tilde ++ lit "ade")
      (py_lower sample_unicode_lower
         (JsonCodec.dumps (story_value (lit "a" ++ n_tilde ++ lit "ade")
                             (lit "As a user, I want more")))).
Proof.
  apply (decide_agents_accented_keywords_dead (example_env oauth_story head_found 201)
           (story_value (lit "a" ++ n_tilde ++ lit "ade") (lit "As a user, I want more"))).
  apply Forall_forall. intros c Hc. apply N.ltb_lt.
  revert c Hc. apply Forall_forall. vm_compute. by repeat constructor.
Defined.

(** ** More on the specification extractor *)

Lemma from_first_before ch s rest :
  from_first ch s = Some rest ->
  exists before, s = before ++ ch :: rest /\ ch ∉ before.
Proof.
  revert rest. induction s as [| c s IH]; intros rest; simpl; [done |].
  destruct (c =? ch) eqn:Heq.
  - apply N.eqb_eq in Heq as ->. intros [= ->]. exists []. split; [done |].
    apply not_elem_of_nil.
  - intros H. destruct (IH _ H) as (before & -> & Hb). exists (c :: before).
    split; [done |]. apply not_elem_of_cons. split; [| done].
    intros ->. by rewrite N.eqb_refl in Heq.
Qed.

Lemma upto_last_after ch s body :
  upto_last ch s = Some body ->
  exists after, s = body ++ ch :: after /\ ch ∉ after.
Proof.
  unfold upto_last. destruct (from_first ch (rev s)) as [r |] eqn:Hr; [| done].
  intros [= <-]. apply from_first_before in Hr as (before & Hr & Hb).
  exists (rev before). split.
  - apply (f_equal (@rev N)) in Hr.
    rewrite rev_involutive, rev_app_distr in Hr. simpl in Hr.
    by rewrite <- app_assoc in Hr.
  - by rewrite list_elem_of_In, <- in_rev, <- list_elem_of_In.
Qed.

(** The search for a JSON object is greedy and blind to nesting: it matches
    exactly when the text has an opening brace with a closing brace
    somewhere after it, and the match is the whole text from the first
    opening brace to the last closing brace, whatever lies between them, be
    it prose or several objects. *)
Theorem re_search_braces_first_to_last (content json_match : str) :
  re_search_braces content = Some json_match <->
  exists before span after,
    content = before ++ [lbrace] ++ span ++ [rbrace] ++ after /\
    (lbrace ∉ before) /\ (rbrace ∉ after) /\
    json_match = [lbrace] ++ span ++ [rbrace].
Proof.
  split.
  - unfold re_search_braces.
    destruct (from_first lbrace content) as [rest |] eqn:Hf; [| done].
    destruct (upto_last rbrace rest) as [body |] eqn:Hu; [| done].
    intros [= <-]. apply from_first_before in Hf as (before & -> & Hb).
    apply upto_last_after in Hu as (after & -> & Ha).
    by exists before, body, after.
  - intros (before & span & after & Hc & Hb & Ha & ->).
    by apply (re_search_braces_span content before span after).
Qed.

(** Two objects in one answer: the match runs from the start of the first to
    the end of the second, and is not valid JSON. *)
Example re_search_braces_two_objects :
  re_search_braces (lit "first {} then {} done") = Some (lit "{} then {}") /\
  JsonCodec.loads (lit "{} then {}") = None.
Proof. split; reflexivity. Qed.

(** Whatever the generator does, the extractor sends it one request, the
    fixed one for the user input, and touches neither the hosting API nor
    the file system.  What the generator raises, the extractor raises; an
    answer without content blocks is an [IndexError], and an answer whose
    first block carries no text is an [AttributeError], whatever the blocks
    after it hold. *)
Theorem create_user_story_single_request (E : Env) (user_input : str) (h : list Event) :
  let answer := messages_create E (h ++ [EvCall m_create_user_story [VStr user_input]])
                  (user_story_request user_input) in
  let run := _create_user_story E user_input h in
  generates run.2 = [EvGenerate (user_story_request user_input)] /\
  hosting_calls run.2 = [] /\
  writes run.2 = [] /\
  (forall e, answer = inl e -> run.1 = inl e) /\
  (answer = inr [] -> run.1 = inl IndexError) /\
  (forall more, answer = inr (OtherBlock :: more) -> run.1 = inl AttributeError).
Proof.
  intros answer run.
  assert (generates run.2 = [EvGenerate (user_story_request user_input)] /\
          hosting_calls run.2 = [] /\ writes run.2 = []) as (Hg & Hh & Hw).
  { subst run. destruct (_create_user_story E user_input h) as [r evs] eqn:Hrun.
    apply create_user_story_run in Hrun as ->. by destruct r. }
  repeat split; try done.
  - intros e He. subst run. rewrite create_user_story_result. fold answer. by rewrite He.
  - intros He. subst run. rewrite create_user_story_result. fold answer. by rewrite He.
  - intros more He. subst run. rewrite create_user_story_result. fold answer.
    by rewrite He.
Qed.

(** ** More on the role executors *)

Section ExecutorFacts.

Variable E : Env.
Variable self : Orchestrator.

(** The researcher, the architect and the documenter need their prompt
    file: without it they raise the [KeyError] of their role before any
    request is sent.  The security executor needs none: it always sends its
    one request, with the built-in instruction when no prompt is loaded. *)
Theorem executors_need_their_prompts (user_story : Json) (research security : option str)
    (h : list Event) :
  (prompts self !! role_researcher = None ->
   _spawn_researcher E self user_story h =
     (inl (KeyError role_researcher), [EvCall m_spawn_researcher [VJson user_story]])) /\
  (prompts self !! role_architect = None ->
   _spawn_architect E self user_story research security h =
     (inl (KeyError role_architect),
      [EvCall m_spawn_architect [VJson user_story; VOpt research; VOpt security]])) /\
  (prompts self !! role_documenter = None ->
   _spawn_documenter E self user_story h =
     (inl (KeyError role_documenter), [EvCall m_spawn_documenter [VJson user_story]])) /\
  generates (_spawn_security E self user_story h).2 =
    [EvGenerate (security_request E self user_story)] /\
  (prompts self !! role_security = None ->
   gen_system (security_request E self user_story) = lit "You are a security expert.").
Proof.
  repeat split.
  - intros Hp. by rewrite spawn_researcher_run, Hp.
  - intros Hp. by rewrite spawn_architect_run, Hp.
  - intros Hp. by rewrite spawn_documenter_run, Hp.
  - rewrite spawn_security_run. unfold executor_run.
    by destruct (messages_create E _ _).
  - intros Hp. unfold security_request. simpl. by rewrite Hp.
Qed.

Lemma block_texts_app a b : block_texts (a ++ b) = block_texts a ++ block_texts b.
Proof.
  induction a as [| [t |] a IH]; simpl; by rewrite ?IH.
Qed.

(** Findings that are empty count as no findings: the architect is given
    the same context for an empty research or security output as for none,
    and an executor's output is empty whenever the generator's answer has no
    text block. *)
Theorem architect_drops_empty_findings (user_story : Json) (research security : option str) :
  architect_context E user_story (Some []) security =
    architect_context E user_story None security /\
  architect_context E user_story research (Some []) =
    architect_context E user_story research None /\
  (forall response,
     Forall (fun b => b = OtherBlock) response ->
     joined_text response = [] /\
     architect_context E user_story (Some (joined_text response)) security =
       architect_context E user_story None security).
Proof.
  split; [reflexivity |]. split; [reflexivity |].
  intros response Hresponse.
  assert (block_texts response = []) as Hb.
  { induction Hresponse as [| b response -> _ IH]; [done | exact IH]. }
  unfold joined_text. by rewrite Hb.
Qed.

Lemma occurs_refl w : occurs w w.
Proof. exists [], []. by rewrite app_nil_r. Qed.

Lemma occurs_app_l w a b : occurs w a -> occurs w (a ++ b).
Proof.
  intros (before & after & ->). exists before, (after ++ b).
  by rewrite <- !app_assoc.
Qed.

Lemma occurs_app_r w a b : occurs w b -> occurs w (a ++ b).
Proof.
  intros (before & after & ->). exists (a ++ before), after.
  by rewrite <- !app_assoc.
Qed.

Lemma occurs_join sep parts p : p ∈ parts -> occurs p (str_join sep parts).
Proof.
  induction parts as [| q parts IH]; [by intros []%elem_of_nil |].
  intros [-> | Hp]%elem_of_cons.
  - destruct parts; [apply occurs_refl | apply occurs_app_l, occurs_refl].
  - destruct parts as [| q' parts]; [by apply elem_of_nil in Hp |].
    change (str_join sep (q :: q' :: parts))
      with (q ++ sep ++ str_join sep (q' :: parts)).
    by apply occurs_app_r, occurs_app_r, IH.
Qed.

(** The architect's request always carries the serialised story, and
    carries the research and the security findings whenever they are not
    empty. *)
Theorem architect_request_carries_findings (system : str) (user_story : Json)
    (research security : option str) :
  let content :=
    gen_user_content
      (architect_request system (architect_context E user_story research security)) in
  occurs (json_dumps_indent2 E user_story) content /\
  (forall findings, research = Some findings -> findings <> [] ->
     occurs (lit "Research Findings:" ++ nl ++ findings) content) /\
  (forall findings, security = Some findings -> findings <> [] ->
     occurs (lit "Security Requirements:" ++ nl ++ findings) content).
Proof.
  intros content. subst content. unfold architect_request, architect_context.
  cbn [gen_user_content]. split; [| split].
  - assert (occurs (json_dumps_indent2 E user_story)
              (lit "User Story:" ++ nl ++ json_dumps_indent2 E user_story)) as Hs
      by apply occurs_app_r, occurs_app_r, occurs_refl.
    destruct (truthy research), (truthy security); cbn [app];
      (destruct Hs as (b & a & Hs); rewrite Hs;
       first [ apply occurs_app_l; by exists b, a | by exists b, a ]).
  - intros findings -> Hne. destruct findings as [| c f]; [done |].
    cbn [truthy].
    assert (occurs (lit "Research Findings:" ++ nl ++ c :: f)
              (nl ++ lit "Research Findings:" ++ nl ++ default [] (Some (c :: f)))) as Hp
      by apply occurs_app_r, occurs_refl.
    destruct Hp as (b & a & Hp).
    assert (forall parts,
              nl ++ lit "Research Findings:" ++ nl ++ default [] (Some (c :: f)) ∈ parts ->
              occurs (lit "Research Findings:" ++ nl ++ c :: f)
                (str_join (nl ++ nl) parts)) as Hin.
    { intros parts Hparts. apply (occurs_join (nl ++ nl)) in Hparts
        as (b' & a' & ->). rewrite Hp. exists (b' ++ b), (a ++ a').
      by rewrite <- !app_assoc. }
    destruct (truthy security); apply Hin; rewrite !elem_of_app, !elem_of_cons; tauto.
  - intros findings -> Hne. destruct findings as [| c f]; [done |].
    cbn [truthy].
    assert (occurs (lit "Security Requirements:" ++ nl ++ c :: f)
              (nl ++ lit "Security Requirements:" ++ nl ++ default [] (Some (c :: f))))
      as (b & a & Hp) by apply occurs_app_r, occurs_refl.
    assert (forall parts,
              nl ++ lit "Security Requirements:" ++ nl ++ default [] (Some (c :: f)) ∈ parts ->
              occurs (lit "Security Requirements:" ++ nl ++ c :: f)
                (str_join (nl ++ nl) parts)) as Hin.
    { intros parts Hparts. apply (occurs_join (nl ++ nl)) in Hparts
        as (b' & a' & ->). rewrite Hp. exists (b' ++ b), (a ++ a').
      by rewrite <- !app_assoc. }
    destruct (truthy research); apply Hin; rewrite !elem_of_app, !elem_of_cons; tauto.
Qed.

End ExecutorFacts.

(** ** More on the sequencer *)

Lemma generates_app evs evs' : generates (evs ++ evs') = generates evs ++ generates evs'.
Proof. apply List.filter_app. Qed.

Lemma hosting_calls_app evs evs' :
  hosting_calls (evs ++ evs') = hosting_calls evs ++ hosting_calls evs'.
Proof. apply List.filter_app. Qed.

Lemma method_inr {A : Type} m args (inj : A -> Value) (body : M A) h x evs :
  method m args inj body h = (inr x, evs) ->
  exists evs0, body (h ++ [EvCall m args]) = (inr x, evs0) /\
               evs = EvCall m args :: evs0 ++ [EvReturn m (inj x)].
Proof.
  rewrite method_run. destruct (body _) as [[e | y] evs0]; intros [= <- <-].
  by exists evs0.
Qed.

Section SequencerMore.

Variable E : Env.
Variable self : Orchestrator.

(** Unknown names and repetitions in the list of agents are harmless: the
    sequencer runs no executor for a name that is not one of the four roles
    and gives it no entry, so the keys of the context it returns are the
    agents that are roles. *)
Theorem sequencer_ignores_unknown_agents user_story agents h context evs :
  _spawn_specialists_sequential E self user_story agents h = (inr context, evs) ->
  dom context = list_to_set agents ∩ list_to_set roles.
Proof.
  intros Hrun.
  destruct (sequencer_context _ _ _ _ _ _ _ Hrun) as (Hin & Hout & Hother).
  apply set_eq. intros role.
  rewrite elem_of_intersection, elem_of_dom, !elem_of_list_to_set. split.
  - intros [out Hrole].
    destruct (decide (role ∈ roles)) as [Hr | Hr];
      [| by rewrite (Hother role Hr) in Hrole].
    destruct (decide (role ∈ agents)) as [Ha | Ha]; [done |].
    by rewrite (Hout role Hr Ha) in Hrole.
  - intros [Ha Hr]. destruct (Hin role Hr Ha) as (out & _ & -> & _). by eexists.
Qed.

Lemma executor_run_generates m args req h out evs :
  executor_run m args req E h = (inr out, evs) -> length (generates evs) = 1%nat.
Proof.
  unfold executor_run. destruct (messages_create E _ _); by intros [= <- <-].
Qed.

Lemma run_if_member_generates role agents start done run results h results' evs :
  (forall h' out evs', run h' = (inr out, evs') -> length (generates evs') = 1%nat) ->
  run_if_member role agents start done run results h = (inr results', evs) ->
  length (generates evs) = if bool_decide (role ∈ agents) then 1%nat else 0%nat.
Proof.
  intros Hone. unfold run_if_member. case_bool_decide.
  - intros Hrun. run_inv. rewrite !generates_app. simpl.
    match goal with H : run _ = _ |- _ => apply Hone in H end.
    rewrite length_app. simpl. lia.
  - intros Hrun. by run_inv.
Qed.

Lemma sequencer_generates user_story agents h context evs :
  _spawn_specialists_sequential E self user_story agents h = (inr context, evs) ->
  length (generates evs) = length (scheduled agents).
Proof.
  intros Hrun.
  apply method_inr in Hrun as (evs0 & Hrun & ->). cbv zeta in Hrun. run_inv.
  repeat match goal with
  | H : run_if_member _ _ _ _ _ _ _ = _ |- _ =>
      apply run_if_member_generates in H;
      [| intros h' out evs';
         first [ rewrite spawn_researcher_run | rewrite spawn_security_run
               | rewrite spawn_architect_run | rewrite spawn_documenter_run ];
         try (destruct (prompts self !! _); [| discriminate]);
         apply executor_run_generates ]
  end.
  rewrite scheduled_parts.
  change (generates (EvCall m_spawn_specialists_sequential [VJson user_story; VList agents]
                       :: ?l)) with (generates l).
  rewrite !generates_app, !length_app.
  repeat match goal with H : length (generates _) = _ |- _ => rewrite H; clear H end.
  simpl. repeat case_bool_decide; simpl; lia.
Qed.

(** A run of the sequencer that returns has sent the generator one request
    for each executor on its schedule, and has touched neither the hosting
    API nor the file system. *)
Theorem sequencer_one_request_per_role user_story agents h context evs :
  _spawn_specialists_sequential E self user_story agents h = (inr context, evs) ->
  length (generates evs) = length (scheduled agents) /\
  hosting_calls evs = [] /\ writes evs = [].
Proof.
  intros Hrun.
  destruct (sequencer_calls _ _ _ _ _ _ _ Hrun) as (Hw & Hh & _).
  split; [by eapply sequencer_generates | done].
Qed.

End SequencerMore.

Lemma sequencer_ignores_unknown_agents_witness :
  exists context evs,
    example_sequencer_run
      [lit "tester"; role_documenter; role_architect; role_documenter] = (inr context, evs) /\
    dom context = {[role_architect; role_documenter]}.
Proof.
  eexists _, _. split; [reflexivity |].
  erewrite (sequencer_ignores_unknown_agents (example_env oauth_story head_found 201)
              example_self _ [lit "tester"; role_documenter; role_architect; role_documenter]
              []); [| reflexivity].
  apply (bool_decide_unpack _). vm_compute. exact I.
Defined.

Lemma sequencer_one_request_per_role_witness :
  length (generates (example_sequencer_run [role_security; role_architect]).2) = 2%nat.
Proof.
  assert (exists context,
            example_sequencer_run [role_security; role_architect] =
              (inr context, (example_sequencer_run [role_security; role_architect]).2))
    as [context Hrun] by (eexists; reflexivity).
  destruct (sequencer_one_request_per_role (example_env oauth_story head_found 201)
              example_self _ [role_security; role_architect] [] _ _ Hrun)
    as [Hcount _].
  rewrite Hcount. reflexivity.
Defined.

(** ** More on the branch provisioner and the handoff publisher *)

Section ProvisionerFacts.

Variable E : Env.
Variable self : Orchestrator.

(** [_create_branch] always looks up the branch [main], whatever the default
    branch of the repository is.  It asks for the new ref only when the
    lookup has given a commit, and then once, with [refs/heads/] before the
    branch name and that very commit; when the lookup gives none it raises
    and nothing is created. *)
Theorem create_branch_requests (repo branch_name : str) (h : list Event) :
  let entry := EvCall m_create_branch [VStr repo; VStr branch_name] in
  let head := resolved_sha
      (requests_get E (h ++ [entry]) (head_url self repo) (api_headers self)) in
  let run := _create_branch E self repo branch_name h in
  (exists front, head_url self repo = front ++ lit "/git/refs/heads/main") /\
  hosting_calls run.2 =
    EvGet (head_url self repo) (api_headers self)
      :: match head with
         | Some sha =>
             [EvPost (refs_url self repo) (api_headers self) (ref_payload branch_name sha)]
         | None => []
         end /\
  (head = None -> exists e, run.1 = inl e) /\
  (forall sha,
     subscript (ref_payload branch_name sha) (lit "ref") =
       inr (JStr (lit "refs/heads/" ++ branch_name)) /\
     subscript (ref_payload branch_name sha) (lit "sha") = inr sha).
Proof.
  intros entry head run.
  pose proof (create_branch_run E self repo branch_name h) as Hrun. cbv zeta in Hrun.
  fold entry head in Hrun. fold run in Hrun.
  split; [| split; [| split]].
  - exists (github_api self ++ lit "/repos/" ++ repo). unfold head_url.
    by rewrite <- !app_assoc.
  - destruct head as [sha |].
    + rewrite Hrun. by destruct (requests_post E _ _ _ _).
    + destruct Hrun as [e ->]. reflexivity.
  - intros ->. destruct Hrun as [e ->]. by exists e.
  - intros sha. split; reflexivity.
Qed.

(** The handoff payload says nothing about where the work is to be done: for
    the same story and context, the publisher writes the same content to the
    same path for every repository and branch.  When the write raises, the
    publisher raises the same and prints no confirmation. *)
Theorem execute_gsd_ignores_repo_and_branch (user_story : Json) (context : gmap str str)
    (repo branch repo' branch' : str) (h h' : list Event) :
  writes (_execute_gsd E user_story context repo branch h).2 =
    writes (_execute_gsd E user_story context repo' branch' h').2 /\
  (forall e,
     write_text E
       (h ++ [EvCall m_execute_gsd [VJson user_story; VDict context; VStr repo; VStr branch]])
       (gsd_context_path E) (json_dumps_indent2 E (gsd_payload user_story context)) = inl e ->
     (_execute_gsd E user_story context repo branch h).1 = inl e /\
     printed (_execute_gsd E user_story context repo branch h).2 = []).
Proof.
  split.
  - destruct (_execute_gsd E user_story context repo branch h) as [r evs] eqn:H1.
    destruct (_execute_gsd E user_story context repo' branch' h') as [r' evs'] eqn:H2.
    apply execute_gsd_events in H1 as [_ H1]. apply execute_gsd_events in H2 as [_ H2].
    simpl. by rewrite H1, H2.
  - intros e He. rewrite execute_gsd_run. cbv zeta. by rewrite He.
Qed.

End ProvisionerFacts.

(** ** The entry point *)

(** Without both credentials, an empty one counting as none, [main] prints
    its error line and then fails with [NameError] on [sys], which the
    module never imports, in place of the exit with status 1 that is written
    there; no collaborator is called. *)
Theorem main_without_credentials (E : Env) (github_token anthropic_key : option str)
    (prompt_files : list (str * str)) (h : list Event) :
  truthy github_token = false \/ truthy anthropic_key = false ->
  main E github_token anthropic_key prompt_files h =
    (inl (NameError (lit "sys")),
     [EvPrint (lit "Error: Set GITHUB_TOKEN and ANTHROPIC_API_KEY environment variables")]).
Proof.
  unfold main. intros [-> | ->]; [done |]. by rewrite orb_true_r.
Qed.

Lemma main_without_credentials_witness :
  main (example_env oauth_story head_found 201) (Some []) (Some (lit "sk-example"))
    example_prompt_files [] =
    (inl (NameError (lit "sys")),
     [EvPrint (lit "Error: Set GITHUB_TOKEN and ANTHROPIC_API_KEY environment variables")]).
Proof.
  apply (main_without_credentials (example_env oauth_story head_found 201)
           (Some []) (Some (lit "sk-example")) example_prompt_files []).
  left. reflexivity.
Defined.

(** ** More on the run coordinator *)


Section CoordinatorMore.

Variable E : Env.
Variable self : Orchestrator.

(** The steps of a run of [handle_request], each with the events it leaves. *)
Ltac request_steps :=
  run_inv;
  repeat match goal with
  | H : _create_user_story _ _ _ = _ |- _ => apply create_user_story_run in H
  | H : invoke_decide_agents _ _ _ = _ |- _ => rewrite invoke_decide_agents_run in H
  | H : invoke_slugify _ _ _ = _ |- _ =>
      apply invoke_slugify_any in H as [(? & ? & ? & ?) | [? ?]]
  | H : _wait_for_pr _ _ _  = _ |- _ => rewrite wait_for_pr_run in H
  end;
  simplify_eq.

Lemma create_branch_returns repo branch_name h x evs :
  _create_branch E self repo branch_name h = (inr x, evs) ->
  exists sha,
    evs = [ EvCall m_create_branch [VStr repo; VStr branch_name];
            EvGet (head_url self repo) (api_headers self);
            EvPost (refs_url self repo) (api_headers self) (ref_payload branch_name sha);
            EvReturn m_create_branch VNone ].
Proof.
  pose proof (create_branch_run E self repo branch_name h) as Hrun. cbv zeta in Hrun.
  destruct (resolved_sha _) as [sha |].
  - rewrite Hrun. destruct (requests_post E _ _ _ _); intros [= <- <-]. by exists sha.
  - by destruct Hrun as [e ->].
Qed.








Lemma sequencer_needs_architect_prompt user_story agents h context evs :
  prompts self !! role_architect = None ->
  role_architect ∈ agents ->
  _spawn_specialists_sequential E self user_story agents h = (inr context, evs) ->
  False.
Proof.
  intros Hprompt Hin Hrun.
  apply method_inr in Hrun as (evs0 & Hrun & _). cbv zeta in Hrun. run_inv.
  match goal with
  | H : run_if_member role_architect _ _ _ _ _ _ = _ |- _ =>
      unfold run_if_member in H; rewrite bool_decide_eq_true_2 in H by done; run_inv
  end.
  match goal with
  | H : _spawn_architect _ _ _ _ _ _ = _ |- _ =>
      rewrite spawn_architect_run, Hprompt in H; discriminate
  end.
Qed.

Lemma execute_gsd_hosting user_story context repo branch h r evs :
  _execute_gsd E user_story context repo branch h = (r, evs) -> hosting_calls evs = [].
Proof.
  rewrite execute_gsd_run. cbv zeta. by destruct (write_text E _ _ _); intros [= <- <-].
Qed.

(** The executors run only on a branch that has been asked for: whenever a
    run has entered the sequencer, whether it returns or fails later, the
    lookup and the request for the new ref have both been sent, and the
    hosting API is not called again, so a run that fails in an executor
    leaves the request for the branch behind.  When the prompt of the
    architect, which the router always chooses, is not loaded, no run
    returns and none writes the payload. *)
Theorem executor_failure_leaves_branch user_input repo h r evs :
  handle_request E self user_input repo h = (r, evs) ->
  (m_spawn_specialists_sequential ∈ calls evs ->
   exists title sha,
     hosting_calls evs =
       [ EvGet (head_url self repo) (api_headers self);
         EvPost (refs_url self repo) (api_headers self)
           (ref_payload (lit "feature/" ++ _slugify (unicode_lower E) title) sha) ]) /\
  (prompts self !! role_architect = None ->
   (exists e, r = inl e) /\ writes evs = []).
Proof.
  unfold handle_request. intros Hrun. request_steps.
  all: repeat match goal with
       | H : _spawn_specialists_sequential _ _ ?s (_decide_agents _ ?s) _ = (inr _, _)
         |- _ =>
           pose proof (fun Hp => sequencer_needs_architect_prompt _ _ _ _ _ Hp
                         (proj2 (decide_agents_elem E s role_architect)
                            (or_intror (or_introl eq_refl))) H);
           apply sequencer_calls in H as (? & ? & _)
       | H : _spawn_specialists_sequential _ _ _ _ _ = _ |- _ =>
           apply sequencer_calls in H as (? & ? & _)
       | H : _create_branch _ _ _ _ _ = (inr _, _) |- _ =>
           apply create_branch_returns in H as [sha ->]
       | H : _create_branch _ _ _ _ _ = _ |- _ =>
           apply create_branch_events in H as (? & _ & ? & _)
       | H : _execute_gsd _ _ _ _ _ _ = _ |- _ =>
           pose proof (execute_gsd_hosting _ _ _ _ _ _ _ H);
           apply execute_gsd_events in H as (_ & ?)
       end.
  all: split; [| intros Hprompt; first [by exfalso; auto | split; [by eexists |]]].
  all: rewrite ?calls_app, ?hosting_calls_app, ?writes_app;
       repeat match goal with
       | H : calls _ = _ |- _ => rewrite H
       | H : hosting_calls _ = _ |- _ => rewrite H
       | H : writes _ = _ |- _ => rewrite H
       end.
  all: try reflexivity.
  all: try (intros _; by eexists _, _).
  all: cbn [calls app]; rewrite ?elem_of_cons, ?elem_of_nil; intros Hin.
  all: exfalso; intuition discriminate.
Qed.

(** Unless the story the extractor returns has a summary and a title that
    is a string, the run fails, and it has then called neither the hosting
    API nor any role executor and has written nothing. *)
Theorem handle_request_needs_summary_and_title user_input repo h r evs :
  handle_request E self user_input repo h = (r, evs) ->
  (forall story summary title,
      (_create_user_story E user_input (h ++ opening_lines)).1 = inr story ->
      subscript story (lit "summary") = inr summary ->
      subscript story (lit "title") = inr (JStr title) -> False) ->
  (exists e, r = inl e) /\
  hosting_calls evs = [] /\ writes evs = [] /\ executor_marks evs = [].
Proof.
  unfold handle_request. intros Hrun Hbad.
  replace (h ++ opening_lines)
    with ((((h ++ [EvPrint (nl ++ banner)]) ++
              [EvPrint (lit "[BOT] ORCHESTRATOR: Processing request")]) ++
             [EvPrint (banner ++ nl)]) ++
            [EvPrint (lit "[1] Step 1: Creating user story...")]) in Hbad
    by (by rewrite <- !app_assoc).
  run_inv.
  all: try match goal with
       | H : _create_user_story _ _ _ = (inr ?s, _),
         H1 : subscript ?s (lit "summary") = inr _,
         H2 : invoke_slugify _ ?t _ = (inr _, _),
         H3 : subscript ?s (lit "title") = inr ?t |- _ =>
           apply invoke_slugify_any in H2 as [(? & -> & _) | [[=] _]];
           exfalso; eapply Hbad; [by rewrite H | exact H1 | exact H3]
       end.
  all: repeat match goal with
       | H : _create_user_story _ _ _ = _ |- _ => apply create_user_story_run in H
       | H : invoke_decide_agents _ _ _ = _ |- _ => rewrite invoke_decide_agents_run in H
       | H : invoke_slugify _ _ _ = _ |- _ =>
           apply invoke_slugify_any in H as [(? & ? & ? & ?) | [? ?]]
       end; simplify_eq.
  all: by repeat split; [eexists | ..].
Qed.

End CoordinatorMore.

Lemma printed_app evs evs' : printed (evs ++ evs') = printed evs ++ printed evs'.
Proof.
  induction evs as [| e evs IH]; [done |]. destruct e; simpl; by rewrite ?IH.
Qed.

(** When [main] returns, the last line it has printed is
    [PR created: https://github.com/your-org/your-repo/pull/XXX]: the
    request and the repository are fixed in the code, and the address it
    reports is the placeholder, whatever the collaborators have answered.
    An exception of [handle_request] is not caught. *)
Theorem main_reports_placeholder (E : Env) (github_token anthropic_key : option str)
    (prompt_files : list (str * str)) (h : list Event) :
  (forall u evs,
      main E github_token anthropic_key prompt_files h = (inr u, evs) ->
      last (printed evs) =
        Some (lit "PR created: https://github.com/your-org/your-repo/pull/XXX")) /\
  (forall e evs,
      truthy github_token = true -> truthy anthropic_key = true ->
      handle_request E (new_orchestrator (default [] github_token) prompt_files)
        main_user_input main_repo h = (inl e, evs) ->
      main E github_token anthropic_key prompt_files h = (inl (Propagated e), evs)).
Proof.
  unfold main. split.
  - intros u evs.
    destruct (negb (truthy github_token) || negb (truthy anthropic_key)); [done |].
    destruct (handle_request _ _ _ _ _) as [[e | url] evs0] eqn:Hrun; [done |].
    intros [= _ <-].
    destruct (handle_request_calls _ _ _ _ _ _ _ Hrun) as [-> _].
    rewrite printed_app. simpl. by rewrite last_snoc.
  - intros e evs -> -> ->. reflexivity.
Qed.

(** ** The further properties in the example environment *)



Lemma executor_failure_leaves_branch_witness :
  (exists title sha,
     hosting_calls
       (handle_request (example_env oauth_story head_found 201)
          (new_orchestrator (lit "ghp_example") []) example_input example_repo []).2 =
       [ EvGet (head_url example_self example_repo) (api_headers example_self);
         EvPost (refs_url example_self example_repo) (api_headers example_self)
           (ref_payload (lit "feature/" ++ _slugify sample_unicode_lower title) sha) ]) /\
  (exists e,
     (handle_request (example_env oauth_story head_found 201)
        (new_orchestrator (lit "ghp_example") []) example_input example_repo []).1 = inl e) /\
  writes
    (handle_request (example_env oauth_story head_found 201)
       (new_orchestrator (lit "ghp_example") []) example_input example_repo []).2 = [].
Proof.
  destruct (executor_failure_leaves_branch (example_env oauth_story head_found 201)
              (new_orchestrator (lit "ghp_example") []) example_input example_repo [] _ _
              (surjective_pairing _)) as [Hbranch Hfails].
  split; [| by apply Hfails].
  apply Hbranch. apply list_elem_of_In. vm_compute. tauto.
Defined.

Lemma handle_request_needs_summary_and_title_witness :
  (exists e, (example_run title_only_story head_found 201).1 = inl e) /\
  hosting_calls (example_run title_only_story head_found 201).2 = [] /\
  writes (example_run title_only_story head_found 201).2 = [] /\
  executor_marks (example_run title_only_story head_found 201).2 = [].
Proof.
  apply (handle_request_needs_summary_and_title
           (example_env title_only_story head_found 201)
           example_self example_input example_repo [] _ _ (surjective_pairing _)).
  intros story summary title Hstory Hsummary _.
  vm_compute in Hstory. injection Hstory as <-. vm_compute in Hsummary. discriminate.
Defined.

Lemma main_reports_placeholder_witness :
  last (printed (main (example_env oauth_story head_found 201) (Some (lit "ghp_example"))
                   (Some (lit "sk-example")) example_prompt_files []).2) =
    Some (lit "PR created: https://github.com/your-org/your-repo/pull/XXX").
Proof.
  apply (proj1 (main_reports_placeholder (example_env oauth_story head_found 201)
                  (Some (lit "ghp_example")) (Some (lit "sk-example"))
                  example_prompt_files []) tt).
  vm_compute. reflexivity.
Defined.
